(** * Verification of the QR codec, the keypad normaliser and the reading
      classifier of the temperature monitor app.

    Sources embedded here:
    - [src/src/utils/qr.ts]: [buildChillerQrValue], [parseChillerIdFromQr];
    - [src/src/components/TempKeypad.tsx]: [normalizeInput];
    - [app/(app)/logs/add.tsx] (src/unnamed/part_008): [parseNumber] and the
      auto-warning effect of the [AddLog] screen.

    A JavaScript string is a list of UTF-16 code units, each a natural number
    below 2^16.  JavaScript library functions the code relies on ([trim],
    [encodeURIComponent], [decodeURIComponent], [Number]) are embedded after
    their ECMAScript definitions. *)

From Stdlib Require Import List NArith ZArith QArith Bool Ascii String Lia.
Import ListNotations.

(* ------------------------------------------------------------------ *)
(** ** JavaScript strings and completions *)

Definition jsstring := list N.

(** A Rocq string literal read as a JavaScript string (ASCII code units). *)
Definition js (s : string) : jsstring :=
  map N_of_ascii (list_ascii_of_string s).

(** The only exception the embedded code can raise. *)
Inductive js_error := URIError.

(** The completion of a JavaScript call: a normal return or a throw. *)
Inductive completion (A : Type) : Type :=
| Normal (a : A)
| Throw (e : js_error).
Arguments Normal {A} a.
Arguments Throw {A} e.

Definition cbind {A B} (m : completion A) (k : A -> completion B) : completion B :=
  match m with
  | Normal a => k a
  | Throw e => Throw e
  end.

Definition cmap {A B} (f : A -> B) (m : completion A) : completion B :=
  cbind m (fun a => Normal (f a)).

Notation "'let*' x := m 'in' k" := (cbind m (fun x => k))
  (at level 200, x name, m at level 100, k at level 200).

(** ECMAScript WhiteSpace and LineTerminator code units, removed by
    [String.prototype.trim]. *)
Definition js_space_units : list N :=
  [9; 10; 11; 12; 13; 32; 160; 5760; 8232; 8233; 8239; 8287; 12288; 65279]%N.

Definition is_js_space (c : N) : bool :=
  existsb (N.eqb c) js_space_units || ((8192 <=? c)%N && (c <=? 8202)%N).

Fixpoint trim_start (s : jsstring) : jsstring :=
  match s with
  | [] => []
  | c :: r => if is_js_space c then trim_start r else s
  end.

Definition trim_end (s : jsstring) : jsstring := rev (trim_start (rev s)).

(** [String.prototype.trim] *)
Definition trim (s : jsstring) : jsstring := trim_end (trim_start s).

(** [String.prototype.startsWith] *)
Fixpoint starts_with (p s : jsstring) : bool :=
  match p, s with
  | [], _ => true
  | a :: p', b :: s' => N.eqb a b && starts_with p' s'
  | _ :: _, [] => false
  end.

Definition is_digit (c : N) : bool := (48 <=? c)%N && (c <=? 57)%N.
Definition is_upper (c : N) : bool := (65 <=? c)%N && (c <=? 90)%N.
Definition is_lower (c : N) : bool := (97 <=? c)%N && (c <=? 122)%N.

(* ------------------------------------------------------------------ *)
(** ** encodeURIComponent and decodeURIComponent (ECMAScript Encode/Decode) *)

(** Hexadecimal digit value, either case. *)
Definition hex_value (c : N) : option N :=
  if is_digit c then Some (c - 48)%N
  else if (65 <=? c)%N && (c <=? 70)%N then Some (c - 55)%N
  else if (97 <=? c)%N && (c <=? 102)%N then Some (c - 87)%N
  else None.

(** Upper-case hexadecimal digit of a value below 16. *)
Definition hex_digit (n : N) : N := if (n <? 10)%N then (48 + n)%N else (55 + n)%N.

(** ["%XY"] for one octet. *)
Definition escape_octet (b : N) : jsstring :=
  [37%N; hex_digit (b / 16)%N; hex_digit (b mod 16)%N].

(** The unreserved set of [encodeURIComponent]:
    ALPHA, DIGIT and [- _ . ! ~ * ' ( )]. *)
Definition uri_unreserved (c : N) : bool :=
  is_upper c || is_lower c || is_digit c
  || existsb (N.eqb c) [45; 95; 46; 33; 126; 42; 39; 40; 41]%N.

Definition is_high_surrogate (c : N) : bool := (55296 <=? c)%N && (c <=? 56319)%N.
Definition is_low_surrogate (c : N) : bool := (56320 <=? c)%N && (c <=? 57343)%N.

(** UTF-8 octets of a code point. *)
Definition utf8_octets (cp : N) : list N :=
  if (cp <? 128)%N then [cp]
  else if (cp <? 2048)%N then [192 + cp / 64; 128 + cp mod 64]%N
  else if (cp <? 65536)%N then
    [224 + cp / 4096; 128 + (cp / 64) mod 64; 128 + cp mod 64]%N
  else [240 + cp / 262144; 128 + (cp / 4096) mod 64;
        128 + (cp / 64) mod 64; 128 + cp mod 64]%N.

Definition escape_cp (cp : N) : jsstring := flat_map escape_octet (utf8_octets cp).

(** [encodeURIComponent]: throws on a lone surrogate. *)
Fixpoint encodeURIComponent (s : jsstring) : completion jsstring :=
  match s with
  | [] => Normal []
  | c :: r =>
      if uri_unreserved c then cmap (cons c) (encodeURIComponent r)
      else if is_low_surrogate c then Throw URIError
      else if is_high_surrogate c then
        match r with
        | c2 :: r2 =>
            if is_low_surrogate c2 then
              let cp := ((c - 55296) * 1024 + (c2 - 56320) + 65536)%N in
              cmap (app (escape_cp cp)) (encodeURIComponent r2)
            else Throw URIError
        | [] => Throw URIError
        end
      else cmap (app (escape_cp c)) (encodeURIComponent r)
  end.

(** Number of octets announced by a leading octet of at least 0x80; [None]
    when it has one or more than four leading one bits. *)
Definition utf8_length (b : N) : option N :=
  if (N.land b 224 =? 192)%N then Some 2%N
  else if (N.land b 240 =? 224)%N then Some 3%N
  else if (N.land b 248 =? 240)%N then Some 4%N
  else None.

Definition utf8_lead_bits (b n : N) : N :=
  if (n =? 2)%N then N.land b 31 else if (n =? 3)%N then N.land b 15 else N.land b 7.

(** The code point of a complete [n]-octet sequence must be a valid UTF-8
    encoding (no overlong form, no surrogate, at most 0x10FFFF); it is
    returned as UTF-16 code units. *)
Definition utf8_finish (n v : N) : option jsstring :=
  let ok :=
    if (n =? 2)%N then (128 <=? v)%N
    else if (n =? 3)%N then (2048 <=? v)%N && negb ((55296 <=? v)%N && (v <=? 57343)%N)
    else (65536 <=? v)%N && (v <=? 1114111)%N in
  if ok then
    if (v <? 65536)%N then Some [v]
    else Some [(55296 + (v - 65536) / 1024)%N; (56320 + (v - 65536) mod 1024)%N]
  else None.

(** Progress through a multi-octet sequence: octets still expected, its
    length, and the bits accumulated so far. *)
Inductive pending := PStart | PCont (remaining n acc : N).

(** States of the decoder, read one code unit at a time. *)
Inductive dec_state :=
| DText                            (* outside an escape *)
| DPct1 (p : pending)              (* after '%' *)
| DPct2 (p : pending) (h : N)      (* after '%' and one hex digit *)
| DNeedPct (p : pending).          (* inside a sequence, '%' expected *)

Fixpoint decode_from (st : dec_state) (s : jsstring) : completion jsstring :=
  match s with
  | [] => match st with DText => Normal [] | _ => Throw URIError end
  | c :: r =>
      match st with
      | DText =>
          if (c =? 37)%N then decode_from (DPct1 PStart) r
          else cmap (cons c) (decode_from DText r)
      | DPct1 p =>
          match hex_value c with
          | Some h => decode_from (DPct2 p h) r
          | None => Throw URIError
          end
      | DPct2 p h =>
          match hex_value c with
          | None => Throw URIError
          | Some l =>
              let b := (h * 16 + l)%N in
              match p with
              | PStart =>
                  if (b <? 128)%N then cmap (cons b) (decode_from DText r)
                  else match utf8_length b with
                       | Some n => decode_from (DNeedPct (PCont (n - 1) n (utf8_lead_bits b n))) r
                       | None => Throw URIError
                       end
              | PCont k n acc =>
                  if (N.land b 192 =? 128)%N then
                    let acc' := (acc * 64 + b mod 64)%N in
                    if (k =? 1)%N then
                      match utf8_finish n acc' with
                      | Some units => cmap (app units) (decode_from DText r)
                      | None => Throw URIError
                      end
                    else decode_from (DNeedPct (PCont (k - 1) n acc')) r
                  else Throw URIError
              end
          end
      | DNeedPct p =>
          if (c =? 37)%N then decode_from (DPct1 p) r else Throw URIError
      end
  end.

(** [decodeURIComponent] (empty reserved set). *)
Definition decodeURIComponent (s : jsstring) : completion jsstring := decode_from DText s.

(* ------------------------------------------------------------------ *)
(** ** src/utils/qr.ts *)

Definition QR_PREFIX : jsstring := js "temp-monitor://chiller/".

Definition buildChillerQrValue (chillerId : jsstring) : completion jsstring :=
  let* e := encodeURIComponent chillerId in Normal (QR_PREFIX ++ e).

(** One character of the class [[a-zA-Z0-9_-]]. *)
Definition raw_id_char (c : N) : bool :=
  is_lower c || is_upper c || is_digit c || (c =? 95)%N || (c =? 45)%N.

(** [/^[a-zA-Z0-9_-]{10,}$/.test(s)] *)
Definition raw_id_test (s : jsstring) : bool :=
  forallb raw_id_char s && (10 <=? List.length s)%nat.

(** [x || null] on a string: the empty string is falsy. *)
Definition or_null (x : jsstring) : option jsstring :=
  match x with [] => None | _ => Some x end.

Definition parseChillerIdFromQr (value : jsstring) : completion (option jsstring) :=
  let s := trim value in
  if starts_with QR_PREFIX s then
    let id := skipn (List.length QR_PREFIX) s in
    let* d := decodeURIComponent id in
    Normal (or_null (trim d))
  else if raw_id_test s then Normal (Some s)
  else Normal None.

(* ------------------------------------------------------------------ *)
(** ** src/components/TempKeypad.tsx *)

Inductive Mode := SignedDecimal | UnsignedDecimal.

(** [s.replace(/,/g, ".")] *)
Definition replace_all_commas (s : jsstring) : jsstring :=
  map (fun c => if (c =? 44)%N then 46%N else c) s.

(** The class [[0-9\-.]] kept by [s.replace(/[^0-9\-.]/g, "")]. *)
Definition keypad_char (c : N) : bool := is_digit c || (c =? 45)%N || (c =? 46)%N.

(** [String.prototype.split] with a one-code-unit separator. *)
Fixpoint split_on (sep : N) (s : jsstring) : list jsstring :=
  match s with
  | [] => [[]]
  | c :: r =>
      let parts := split_on sep r in
      if (c =? sep)%N then [] :: parts
      else match parts with
           | p :: ps => (c :: p) :: ps
           | [] => [[c]]
           end
  end.

(** The "handle dot: only one" block: with more than one ['.'], keep the
    first part, one ['.'], then the remaining parts joined with [""]. *)
Definition collapse_dots (s : jsstring) : jsstring :=
  let parts := split_on 46 s in
  if (2 <? List.length parts)%nat then
    match parts with
    | p0 :: rest => p0 ++ [46%N] ++ List.concat rest
    | [] => s
    end
  else s.

Definition normalizeInput (raw : jsstring) (mode : Mode) : jsstring :=
  let s := replace_all_commas raw in
  let s := filter keypad_char s in
  let allowMinus := match mode with SignedDecimal => true | UnsignedDecimal => false end in
  let startsMinus := starts_with [45%N] s in
  let s := filter (fun c => negb (c =? 45)%N) s in
  let s := if allowMinus && startsMinus then 45%N :: s else s in
  collapse_dots s.

(* ------------------------------------------------------------------ *)
(** ** Numbers: [Number(string)] and binary64 rounding *)

(** A JavaScript number.  A finite number is kept as its exact rational
    value; the sign of zero is not tracked. *)
Inductive jsnum := JNaN | JInf (neg : bool) | JFin (q : Q).

Definition Qpow2 (k : Z) : Q :=
  if (0 <=? k)%Z then inject_Z (2 ^ k) else 1 # Z.to_pos (2 ^ (- k)).

Definition Qpow10 (k : Z) : Q :=
  if (0 <=? k)%Z then inject_Z (10 ^ k) else 1 # Z.to_pos (10 ^ (- k)).

(** [p / d] rounded to the nearest integer, ties to even ([p >= 0], [d > 0]). *)
Definition round_half_even (p d : Z) : Z :=
  let f := (p / d)%Z in
  let r := (p mod d)%Z in
  match Z.compare (2 * r) d with
  | Lt => f
  | Gt => f + 1
  | Eq => if Z.even f then f else f + 1
  end%Z.

(** Round-to-nearest-even of the positive rational [n / d] to binary64:
    [e] is the binary exponent of [n / d], clamped to the subnormal range,
    and [m] the rounded 53-bit significand; overflow gives Infinity. *)
Definition round_pos (neg : bool) (n d : Z) : jsnum :=
  let e0 := (Z.log2 n - Z.log2 d)%Z in
  let above := if (0 <=? e0)%Z then (d * 2 ^ e0 <=? n)%Z else (d <=? n * 2 ^ (- e0))%Z in
  let e := Z.max (if above then e0 else e0 - 1) (-1022) in
  let m := if (0 <=? 52 - e)%Z then round_half_even (n * 2 ^ (52 - e)) d
           else round_half_even n (d * 2 ^ (e - 52)) in
  let v := inject_Z m * Qpow2 (e - 52) in
  if Qle_bool (Qpow2 1024) v then JInf neg
  else JFin (Qred (if neg then - v else v)).

(** RoundMVResult of a literal with sign [neg] and mathematical value [q >= 0]. *)
Definition round_binary64 (neg : bool) (q : Q) : jsnum :=
  match Qnum q with
  | Zpos n => round_pos neg (Zpos n) (Zpos (Qden q))
  | _ => JFin 0
  end.

Definition digit_value (c : N) : Z := Z.of_N (c - 48).

Definition radix_digit (base : Z) (c : N) : option Z :=
  match hex_value c with
  | Some v => if (Z.of_N v <? base)%Z then Some (Z.of_N v) else None
  | None => None
  end.

Definition is_exp_mark (c : N) : bool := (c =? 101)%N || (c =? 69)%N.

(** States of a reader of StrNumericLiteral, one code unit at a time. *)
Inductive lit_state :=
| LStart
| LSign (neg : bool)                       (* "+" or "-" *)
| LZero                                    (* an unsigned "0" (may open 0x, 0o, 0b) *)
| LInt (neg : bool) (m : Z)                (* integer digits *)
| LDot (neg : bool)                        (* "." without integer digits *)
| LFrac (neg : bool) (m : Z) (fd : Z)      (* digits and "."; [fd] fraction digits *)
| LExpE (neg : bool) (m : Z) (fd : Z)      (* after "e" *)
| LExpSign (neg : bool) (m : Z) (fd : Z) (eneg : bool)
| LExp (neg : bool) (m : Z) (fd : Z) (eneg : bool) (e : Z)
| LInf (neg : bool) (rest : jsstring)      (* inside "Infinity"; [rest] still expected *)
| LRadix (base : Z) (m : Z) (seen : bool)  (* NonDecimalIntegerLiteral *)
| LReject.

Definition lit_step (st : lit_state) (c : N) : lit_state :=
  match st with
  | LStart =>
      if (c =? 43)%N then LSign false
      else if (c =? 45)%N then LSign true
      else if (c =? 48)%N then LZero
      else if is_digit c then LInt false (digit_value c)
      else if (c =? 46)%N then LDot false
      else if (c =? 73)%N then LInf false (js "nfinity")
      else LReject
  | LSign neg =>
      if is_digit c then LInt neg (digit_value c)
      else if (c =? 46)%N then LDot neg
      else if (c =? 73)%N then LInf neg (js "nfinity")
      else LReject
  | LZero =>
      if is_digit c then LInt false (digit_value c)
      else if (c =? 46)%N then LFrac false 0 0
      else if is_exp_mark c then LExpE false 0 0
      else if (c =? 120)%N || (c =? 88)%N then LRadix 16 0 false
      else if (c =? 111)%N || (c =? 79)%N then LRadix 8 0 false
      else if (c =? 98)%N || (c =? 66)%N then LRadix 2 0 false
      else LReject
  | LInt neg m =>
      if is_digit c then LInt neg (10 * m + digit_value c)
      else if (c =? 46)%N then LFrac neg m 0
      else if is_exp_mark c then LExpE neg m 0
      else LReject
  | LDot neg =>
      if is_digit c then LFrac neg (digit_value c) 1 else LReject
  | LFrac neg m fd =>
      if is_digit c then LFrac neg (10 * m + digit_value c) (fd + 1)
      else if is_exp_mark c then LExpE neg m fd
      else LReject
  | LExpE neg m fd =>
      if (c =? 43)%N then LExpSign neg m fd false
      else if (c =? 45)%N then LExpSign neg m fd true
      else if is_digit c then LExp neg m fd false (digit_value c)
      else LReject
  | LExpSign neg m fd en =>
      if is_digit c then LExp neg m fd en (digit_value c) else LReject
  | LExp neg m fd en e =>
      if is_digit c then LExp neg m fd en (10 * e + digit_value c) else LReject
  | LInf neg rest =>
      match rest with
      | x :: r => if (c =? x)%N then LInf neg r else LReject
      | [] => LReject
      end
  | LRadix base m _ =>
      match radix_digit base c with
      | Some d => LRadix base (base * m + d) true
      | None => LReject
      end
  | LReject => LReject
  end.

(** StringNumericValue of the literal read, or NaN when it is not one. *)
Definition lit_value (st : lit_state) : jsnum :=
  match st with
  | LZero => JFin 0
  | LInt neg m => round_binary64 neg (inject_Z m)
  | LFrac neg m fd => round_binary64 neg (inject_Z m * Qpow10 (- fd))
  | LExp neg m fd en e =>
      round_binary64 neg (inject_Z m * Qpow10 ((if en then - e else e) - fd))
  | LInf neg [] => JInf neg
  | LRadix _ m true => round_binary64 false (inject_Z m)
  | _ => JNaN
  end.

(** [Number(s)] (StringToNumber): surrounding white space is ignored, an
    empty or blank string is 0. *)
Definition Number (s : jsstring) : jsnum :=
  match trim s with
  | [] => JFin 0
  | t => lit_value (fold_left lit_step t LStart)
  end.

(** [Number.isFinite] *)
Definition isFinite (n : jsnum) : bool := match n with JFin _ => true | _ => false end.

(** The relational comparison [a < b] on numbers. *)
Definition js_lt (a b : jsnum) : bool :=
  match a, b with
  | JNaN, _ | _, JNaN => false
  | JFin x, JFin y => negb (Qle_bool y x)
  | JInf true, JInf true => false
  | JInf true, _ => true
  | JInf false, _ => false
  | JFin _, JInf neg => negb neg
  end.

(* ------------------------------------------------------------------ *)
(** ** app/(app)/logs/add.tsx *)

(** [number | null | "nan"] *)
Inductive parsed := PNull | PNaN | PValue (q : Q).

(** [t.replace(",", ".")]: a string pattern replaces its first occurrence only. *)
Fixpoint replace_first_comma (s : jsstring) : jsstring :=
  match s with
  | [] => []
  | c :: r => if (c =? 44)%N then 46%N :: r else c :: replace_first_comma r
  end.

Definition parseNumber (val : jsstring) : parsed :=
  let t := trim val in
  match t with
  | [] => PNull
  | _ =>
      if list_eq_dec N.eq_dec t (js "-") then PNaN
      else if list_eq_dec N.eq_dec t (js ".") then PNaN
      else if list_eq_dec N.eq_dec t (js "-.") then PNaN
      else
        let normalized := replace_first_comma t in
        match Number normalized with
        | JFin q => PValue q
        | _ => PNaN
        end
  end.

Inductive Status := ok | warning | damaged.

Definition Status_eqb (a b : Status) : bool :=
  match a, b with
  | ok, ok | warning, warning | damaged, damaged => true
  | _, _ => false
  end.

(** [minTemp] and [maxTemp] are [null] ([None]) when not configured. *)
Record Chiller := {
  id : jsstring;
  ownerId : jsstring;
  name : jsstring;
  branchId : jsstring;
  minTemp : option jsnum;
  maxTemp : option jsnum
}.

(** The status the auto-warning effect leaves after [tempC] or [chiller]
    changed: a [return] keeps [status], [setStatus x] makes it [x]. *)
Definition autoWarning (chiller : option Chiller) (tempC : jsstring) (status : Status) : Status :=
  match chiller with
  | None => status
  | Some ch =>
      match parseNumber tempC with
      | PNull | PNaN => status
      | PValue t =>
          if Status_eqb status damaged then status
          else
            match minTemp ch, maxTemp ch with
            | None, None => ok
            | min, max =>
                let isLow := match min with Some m => js_lt (JFin t) m | None => false end in
                let isHigh := match max with Some m => js_lt m (JFin t) | None => false end in
                if isLow || isHigh then warning else ok
            end
      end
  end.

(* ------------------------------------------------------------------ *)
(** ** More of src/components/TempKeypad.tsx *)

(** The key label ["±"] (U+00B1). *)
Definition key_sign : jsstring := [177%N].

Definition appendChar (current ch : jsstring) (mode : Mode) : jsstring :=
  let cur := current in
  if list_eq_dec N.eq_dec ch key_sign then
    match mode with
    | UnsignedDecimal => cur
    | SignedDecimal =>
        match cur with
        | [] => [45%N]
        | c :: r => if (c =? 45)%N then r else 45%N :: cur
        end
    end
  else if list_eq_dec N.eq_dec ch [46%N] then
    match cur with
    | [] => js "0."
    | _ => if existsb (N.eqb 46) cur then cur else cur ++ [46%N]
    end
  else
    (* [/^\d$/.test(ch)] *)
    match ch with
    | [d] => if is_digit d then cur ++ [d] else cur
    | _ => cur
    end.

Definition backspace (current : jsstring) : jsstring :=
  match current with
  | [] => []
  | _ => removelast current
  end.

(** [onPress] of a key of the grid and of the backspace key: the new
    buffer handed to [onChange]. *)
Definition pressKey (value k : jsstring) (mode : Mode) : jsstring :=
  normalizeInput (appendChar value k mode) mode.

Definition pressBackspace (value : jsstring) (mode : Mode) : jsstring :=
  normalizeInput (backspace value) mode.

(* ------------------------------------------------------------------ *)
(** ** app/(app)/qr/[id].tsx *)

(** The QR detail screen's own [buildChillerQrValue]: the identifier is
    appended without percent-encoding. *)
Definition qr_page_value (chillerId : jsstring) : jsstring := QR_PREFIX ++ chillerId.

(** [.replace(/[^a-z0-9_-]+/gi, "_")].  Matched case-insensitively (without
    the [u] flag, a code unit at or above 128 never canonicalises to an ASCII
    one), the class [[a-z0-9_-]] is exactly [raw_id_char]; the global replace
    turns each maximal run of other code units into one ["_"].  [in_run]
    tells whether the previous code unit was part of such a run. *)
Fixpoint replace_runs (in_run : bool) (s : jsstring) : jsstring :=
  match s with
  | [] => []
  | c :: r =>
      if raw_id_char c then c :: replace_runs false r
      else if in_run then replace_runs true r
      else 95%N :: replace_runs true r
  end.

(** [.replace(/_+/g, "_")]: each maximal run of ["_"] becomes one. *)
Fixpoint squeeze_underscores (in_run : bool) (s : jsstring) : jsstring :=
  match s with
  | [] => []
  | c :: r =>
      if (c =? 95)%N then
        if in_run then squeeze_underscores true r else c :: squeeze_underscores true r
      else c :: squeeze_underscores false r
  end.

(** [(name || "chiller").trim().replace(...).replace(...).slice(0, 48)] *)
Definition safeNameForFile (name : jsstring) : jsstring :=
  let n := match name with [] => js "chiller" | _ => name end in
  firstn 48 (squeeze_underscores false (replace_runs false (trim n))).

(* ------------------------------------------------------------------ *)
(** ** The validation of [onSave] in app/(app)/logs/add.tsx *)

(** What [onSave] does before any upload or write: return early, show a
    validation alert, or pass validation. [SubmitLog] records the fields the
    log is then written with ([tempC: t], [humidity: h ?? null], [status],
    [note: note.trim()]); the later [uploadPhotoIfNeeded] and [addDoc] are not
    modelled, so the written [photoUrl] (null after a failed upload) is not. *)
Inductive SaveOutcome :=
| SaveSkipped
| ValidationAlert (message : jsstring)
| SubmitLog (tempC : Q) (humidity : option Q) (status : Status) (note : jsstring).

(** A string is truthy when it is not empty. *)
Definition js_truthy (s : jsstring) : bool := match s with [] => false | _ => true end.

(** [photoUri] is [string | null]. *)
Definition photo_truthy (photoUri : option jsstring) : bool :=
  match photoUri with Some p => js_truthy p | None => false end.

(** [user] tells whether a user is signed in. *)
Definition onSave (user : bool) (chiller : option Chiller) (tempC humidity : jsstring)
    (status : Status) (note : jsstring) (photoUri : option jsstring) : SaveOutcome :=
  if negb user then SaveSkipped else
  match chiller with
  | None => SaveSkipped
  | Some _ =>
      match parseNumber tempC with
      | PNull | PNaN => ValidationAlert (js "Temperature is required and must be a number.")
      | PValue t =>
          match parseNumber humidity with
          | PNaN => ValidationAlert (js "Humidity must be a number.")
          | h =>
              if (Status_eqb status warning || Status_eqb status damaged)
                 && negb (js_truthy (trim note))
              then ValidationAlert (js "Note is required for Warning/Damaged.")
              else if Status_eqb status damaged && negb (photo_truthy photoUri)
              then ValidationAlert (js "Photo is required when status is Damaged.")
              else SubmitLog t (match h with PValue q => Some q | _ => None end) status (trim note)
          end
      end
  end.

(* ------------------------------------------------------------------ *)
(** ** app/(app)/logs/photo.tsx *)

(** [String.prototype.includes] *)
Fixpoint includes (needle hay : jsstring) : bool :=
  starts_with needle hay || match hay with [] => false | _ :: t => includes needle t end.

(** Line terminators, which [.] does not match. *)
Definition is_line_terminator (c : N) : bool :=
  (c =? 10)%N || (c =? 13)%N || (c =? 8232)%N || (c =? 8233)%N.

(** The longest prefix without ['/'], and the rest. *)
Fixpoint until_slash (s : jsstring) : jsstring * jsstring :=
  match s with
  | [] => ([], [])
  | c :: r => if (c =? 47)%N then ([], s) else let (a, b) := until_slash r in (c :: a, b)
  end.

(** [base.match(/^(https:\/\/[^/]+\/v0\/b\/[^/]+\/o\/)(.+)$/)]: the two
    groups, or [None] when it does not match. [[^/]+] stops at the first
    ['/'], and [.+] reads the non-empty rest, which must hold no line
    terminator. *)
Definition match_storage_url (base : jsstring) : option (jsstring * jsstring) :=
  if starts_with (js "https://") base then
    let (host, r2) := until_slash (skipn 8 base) in
    if js_truthy host && starts_with (js "/v0/b/") r2 then
      let (bucket, r4) := until_slash (skipn 6 r2) in
      if js_truthy bucket && starts_with (js "/o/") r4 then
        let objectPart := skipn 3 r4 in
        if js_truthy objectPart && forallb (fun c => negb (is_line_terminator c)) objectPart
        then Some (js "https://" ++ host ++ js "/v0/b/" ++ bucket ++ js "/o/", objectPart)
        else None
      else None
    else None
  else None.

(** The [catch] branch is taken when [decodeURIComponent] or
    [encodeURIComponent] throws. *)
Definition normalizeFirebaseStorageUrl (input : jsstring) : jsstring :=
  let raw := trim input in
  match raw with
  | [] => []
  | _ =>
      if includes (js "/v0/b/") raw && includes (js "/o/") raw && includes (js "%2F") raw
      then raw
      else
        let parts := split_on 63 raw in
        let base := hd [] parts in
        let query := match nth_error parts 1 with Some q => q | None => [] end in
        match match_storage_url base with
        | None => raw
        | Some (prefix, objectPart) =>
            match cbind (decodeURIComponent objectPart) encodeURIComponent with
            | Normal encodedObject =>
                if js_truthy query then prefix ++ encodedObject ++ [63%N] ++ query
                else prefix ++ encodedObject
            | Throw _ => trim input
            end
        end
  end.

(* ================================================================== *)
(** * Proofs *)

(** ** Finite checks over code units *)

Definition N_range (k : nat) : list N := map N.of_nat (seq 0 k).

Lemma forallb_N_range (P : N -> bool) (k : nat) :
  forallb P (N_range k) = true -> forall n, (n < N.of_nat k)%N -> P n = true.
Proof.
  intros H n Hn. rewrite forallb_forall in H. apply H.
  unfold N_range. apply in_map_iff. exists (N.to_nat n). split.
  - apply N2Nat.id.
  - apply in_seq. lia.
Qed.

Lemma hex_value_hex_digit (n : N) : (n < 16)%N -> hex_value (hex_digit n) = Some n.
Proof.
  intros Hn.
  pose proof (forallb_N_range
    (fun n => match hex_value (hex_digit n) with Some m => N.eqb m n | None => false end)
    16 ltac:(vm_compute; reflexivity) n Hn) as H.
  cbv beta in H.
  destruct (hex_value (hex_digit n)) as [m|]; [|discriminate H].
  apply N.eqb_eq in H. now subst.
Qed.

(** ** Strings *)

Lemma trim_start_app_nonspace (s t : jsstring) :
  forallb (fun u => negb (is_js_space u)) s = true -> s <> [] ->
  trim_start (s ++ t) = s ++ t.
Proof.
  destruct s as [|c s]; [congruence|]. simpl. intros H _.
  apply andb_prop in H as [H _]. destruct (is_js_space c); [discriminate|reflexivity].
Qed.

Lemma starts_with_app (p s : jsstring) : starts_with p (p ++ s) = true.
Proof. induction p as [|a p IH]; simpl; [reflexivity|]. now rewrite N.eqb_refl, IH. Qed.

Lemma skipn_length_app (p s : jsstring) : skipn (List.length p) (p ++ s) = s.
Proof. induction p as [|a p IH]; simpl; auto. Qed.

Lemma forallb_rev {A} (f : A -> bool) (s : list A) :
  forallb f (rev s) = forallb f s.
Proof.
  induction s as [|a s IH]; simpl; auto.
  rewrite forallb_app, IH. simpl. now rewrite andb_true_r, andb_comm.
Qed.

(** ** The codec on ASCII identifiers *)

(** The output of [encodeURIComponent] for one ASCII code unit. *)
Definition encode_ascii (c : N) : jsstring :=
  if uri_unreserved c then [c] else escape_octet c.

Lemma encode_ascii_correct (s : jsstring) :
  forallb (fun c => (c <? 128)%N) s = true ->
  encodeURIComponent s = Normal (flat_map encode_ascii s).
Proof.
  induction s as [|c s IH]; simpl; [reflexivity|].
  intros H. apply andb_prop in H as [Hc Hs]. apply N.ltb_lt in Hc.
  unfold encode_ascii. destruct (uri_unreserved c).
  - now rewrite IH.
  - assert (Hl : is_low_surrogate c = false)
      by (unfold is_low_surrogate; apply andb_false_iff; left; apply N.leb_gt; lia).
    assert (Hh : is_high_surrogate c = false)
      by (unfold is_high_surrogate; apply andb_false_iff; left; apply N.leb_gt; lia).
    rewrite Hl, Hh, IH by exact Hs.
    unfold escape_cp, utf8_octets. replace (c <? 128)%N with true by (symmetry; now apply N.ltb_lt).
    simpl. reflexivity.
Qed.

Lemma decode_encode_ascii (c : N) (r : jsstring) :
  (c < 128)%N ->
  decode_from DText (encode_ascii c ++ r) = cmap (cons c) (decode_from DText r).
Proof.
  intros Hc. unfold encode_ascii.
  destruct (uri_unreserved c) eqn:Hu.
  - simpl. destruct (N.eqb_spec c 37) as [->|_]; [vm_compute in Hu; discriminate Hu|reflexivity].
  - simpl.
    rewrite hex_value_hex_digit by (apply N.Div0.div_lt_upper_bound; lia).
    rewrite hex_value_hex_digit by (apply N.mod_lt; lia).
    replace (c / 16 * 16 + c mod 16)%N with c
      by (rewrite N.mul_comm; rewrite <- N.Div0.div_mod; reflexivity).
    replace (c <? 128)%N with true by (symmetry; now apply N.ltb_lt).
    reflexivity.
Qed.

Lemma decode_encode_ascii_string (s : jsstring) :
  forallb (fun c => (c <? 128)%N) s = true ->
  decodeURIComponent (flat_map encode_ascii s) = Normal s.
Proof.
  unfold decodeURIComponent.
  induction s as [|c s IH]; simpl; [reflexivity|].
  intros H. apply andb_prop in H as [Hc Hs]. apply N.ltb_lt in Hc.
  rewrite decode_encode_ascii by exact Hc. now rewrite IH.
Qed.

(** No code unit of an encoded ASCII character is white space. *)
Lemma encode_ascii_nonspace (c : N) :
  (c < 128)%N -> forallb (fun u => negb (is_js_space u)) (encode_ascii c) = true.
Proof.
  apply (forallb_N_range (fun c => forallb (fun u => negb (is_js_space u)) (encode_ascii c)) 128).
  vm_compute. reflexivity.
Qed.

Lemma encode_string_nonspace (s : jsstring) :
  forallb (fun c => (c <? 128)%N) s = true ->
  forallb (fun u => negb (is_js_space u)) (flat_map encode_ascii s) = true.
Proof.
  induction s as [|c s IH]; simpl; [reflexivity|].
  intros H. apply andb_prop in H as [Hc Hs]. apply N.ltb_lt in Hc.
  rewrite forallb_app, encode_ascii_nonspace, IH; auto.
Qed.

Lemma encode_ascii_nonempty (s : jsstring) :
  s <> [] -> flat_map encode_ascii s <> [].
Proof.
  destruct s as [|c s]; [congruence|]. intros _. simpl.
  unfold encode_ascii. destruct (uri_unreserved c); simpl; discriminate.
Qed.

Lemma trim_prefix_encoded (e : jsstring) :
  forallb (fun u => negb (is_js_space u)) e = true -> e <> [] ->
  trim (QR_PREFIX ++ e) = QR_PREFIX ++ e.
Proof.
  intros He Hne. unfold trim, trim_end.
  rewrite (trim_start_app_nonspace QR_PREFIX e) by (vm_compute; congruence).
  rewrite rev_app_distr.
  rewrite trim_start_app_nonspace.
  - rewrite <- rev_app_distr. apply rev_involutive.
  - now rewrite forallb_rev.
  - intros Hr. apply Hne. apply (f_equal (@rev N)) in Hr. now rewrite rev_involutive in Hr.
Qed.

(** ** Claims on src/utils/qr.ts *)

(** C1 (code_bug): a payload with the scheme prefix whose remainder is a
    malformed escape makes [decodeURIComponent] throw, and
    [parseChillerIdFromQr] has no handler: the call throws [URIError]
    instead of returning [null]. *)
Theorem parse_malformed_escape_throws :
  parseChillerIdFromQr (js "temp-monitor://chiller/%") = Throw URIError
  /\ parseChillerIdFromQr (js "temp-monitor://chiller/%E0%A4%A") = Throw URIError
  /\ parseChillerIdFromQr (js "temp-monitor://chiller/%FF") = Throw URIError.
Proof. vm_compute. repeat split. Qed.

(** C2: for a non-empty identifier of ASCII code units (which contains the
    unreserved and punctuation characters) with no surrounding white space,
    building the QR value and parsing it back returns the identifier. *)
Theorem qr_round_trip (x : jsstring) :
  x <> [] ->
  forallb (fun c => (c <? 128)%N) x = true ->
  trim x = x ->
  cbind (buildChillerQrValue x) parseChillerIdFromQr = Normal (Some x).
Proof.
  intros Hne Hascii Htrim.
  unfold buildChillerQrValue. rewrite encode_ascii_correct by exact Hascii. cbn [cbind].
  unfold parseChillerIdFromQr.
  rewrite trim_prefix_encoded
    by (apply encode_string_nonspace, Hascii || apply encode_ascii_nonempty, Hne).
  rewrite starts_with_app, skipn_length_app, decode_encode_ascii_string by exact Hascii.
  simpl. rewrite Htrim. destruct x; [congruence|reflexivity].
Qed.

Lemma qr_round_trip_witness :
  cbind (buildChillerQrValue (js "Chiller-01 (kitchen)/#2?")) parseChillerIdFromQr
  = Normal (Some (js "Chiller-01 (kitchen)/#2?")).
Proof.
  apply qr_round_trip; [discriminate | vm_compute; reflexivity | vm_compute; reflexivity].
Defined.

(** C8: when the trimmed payload starts with the scheme prefix and the rest
    percent-decodes to [d], the result is the trimmed [d], or none when it is
    empty; the prefix path has no minimum length. *)
Theorem parse_prefixed :
  (forall payload d,
     starts_with QR_PREFIX (trim payload) = true ->
     decodeURIComponent (skipn (List.length QR_PREFIX) (trim payload)) = Normal d ->
     parseChillerIdFromQr payload
     = Normal (match trim d with [] => None | t => Some t end))
  /\ parseChillerIdFromQr (QR_PREFIX ++ js "abc") = Normal (Some (js "abc"))
  /\ raw_id_test (js "abc") = false.
Proof.
  split; [|vm_compute; split; reflexivity].
  intros payload d Hp Hd. unfold parseChillerIdFromQr.
  rewrite Hp, Hd. cbn [cbind]. unfold or_null. destruct (trim d); reflexivity.
Qed.

Lemma parse_prefixed_witness :
  parseChillerIdFromQr (js " temp-monitor://chiller/%20a%2Fb ") = Normal (Some (js "a/b")).
Proof.
  apply (proj1 parse_prefixed (js " temp-monitor://chiller/%20a%2Fb ") (js " a/b"));
    vm_compute; reflexivity.
Defined.

(** C9: when the trimmed payload does not start with the scheme prefix, the
    result is the trimmed payload if it matches [^[a-zA-Z0-9_-]{10,}$], and
    none otherwise. *)
Theorem parse_bare_token :
  (forall payload,
     starts_with QR_PREFIX (trim payload) = false ->
     parseChillerIdFromQr payload
     = Normal (if raw_id_test (trim payload) then Some (trim payload) else None))
  /\ parseChillerIdFromQr (js "abcdefghij") = Normal (Some (js "abcdefghij"))
  /\ parseChillerIdFromQr (js "short") = Normal None.
Proof.
  split; [|vm_compute; split; reflexivity].
  intros payload Hp. unfold parseChillerIdFromQr.
  rewrite Hp. destruct (raw_id_test (trim payload)); reflexivity.
Qed.

Lemma parse_bare_token_witness :
  parseChillerIdFromQr (js "  Ab_-123456789 ") = Normal (Some (js "Ab_-123456789")).
Proof.
  apply (proj1 parse_bare_token (js "  Ab_-123456789 ")). vm_compute. reflexivity.
Defined.

(** ** The keypad normaliser *)

(** Number of occurrences of the code unit [u]. *)
Fixpoint count_unit (u : N) (s : jsstring) : nat :=
  match s with
  | [] => 0
  | c :: r => (if (c =? u)%N then 1 else 0) + count_unit u r
  end.

(** The grammar [-? [0-9]* ( \. [0-9]* )?]: digits with at most one ['.'], after
    an optional leading ['-'] allowed only when [allowMinus]. *)
Definition unsigned_decimal_ok (b : jsstring) : bool :=
  forallb (fun c => is_digit c || (c =? 46)%N) b && (count_unit 46 b <=? 1)%nat.

Definition keypad_grammar (allowMinus : bool) (s : jsstring) : bool :=
  match s with
  | [] => true
  | c :: b => if (c =? 45)%N then allowMinus && unsigned_decimal_ok b else unsigned_decimal_ok s
  end.

Lemma count_unit_app (u : N) (s t : jsstring) :
  count_unit u (s ++ t) = (count_unit u s + count_unit u t)%nat.
Proof. induction s as [|c s IH]; simpl; [reflexivity|]. rewrite IH. lia. Qed.

Lemma count_unit_filter_ne (u : N) (s : jsstring) :
  count_unit u (filter (fun c => negb (c =? u)%N) s) = 0%nat.
Proof.
  induction s as [|c s IH]; simpl; [reflexivity|].
  destruct (N.eqb_spec c u); simpl; [exact IH|].
  destruct (N.eqb_spec c u); [contradiction|exact IH].
Qed.

Lemma split_on_nonnil (sep : N) (s : jsstring) : split_on sep s <> [].
Proof.
  destruct s as [|c s]; simpl; [discriminate|].
  destruct (c =? sep)%N; [discriminate|]. destruct (split_on sep s); discriminate.
Qed.

Lemma split_on_concat (sep : N) (s : jsstring) :
  List.concat (split_on sep s) = filter (fun c => negb (c =? sep)%N) s.
Proof.
  induction s as [|c s IH]; simpl; [reflexivity|].
  destruct (c =? sep)%N; simpl; [exact IH|].
  pose proof (split_on_nonnil sep s) as Hn.
  destruct (split_on sep s) as [|p ps]; [congruence|]. simpl in *. now rewrite IH.
Qed.

Lemma split_on_length (sep : N) (s : jsstring) :
  List.length (split_on sep s) = S (count_unit sep s).
Proof.
  induction s as [|c s IH]; simpl; [reflexivity|].
  pose proof (split_on_nonnil sep s) as Hn.
  destruct (c =? sep)%N; simpl; [now rewrite IH|].
  destruct (split_on sep s) as [|p ps]; [congruence|]. exact IH.
Qed.

Lemma forallb_filter {A} (P f : A -> bool) (s : list A) :
  forallb P s = true -> forallb P (filter f s) = true.
Proof.
  induction s as [|a s IH]; simpl; [reflexivity|].
  intros H. apply andb_prop in H as [Ha Hs].
  destruct (f a); simpl; [rewrite Ha|]; auto.
Qed.

Lemma filter_id {A} (f : A -> bool) (s : list A) :
  forallb f s = true -> filter f s = s.
Proof.
  induction s as [|a s IH]; simpl; [reflexivity|].
  intros H. apply andb_prop in H as [Ha Hs]. rewrite Ha, IH; auto.
Qed.

Lemma collapse_dots_id (s : jsstring) :
  (count_unit 46 s <= 1)%nat -> collapse_dots s = s.
Proof.
  intros H. unfold collapse_dots. rewrite split_on_length.
  replace (2 <? S (count_unit 46 s))%nat with false by (symmetry; apply Nat.ltb_ge; lia).
  reflexivity.
Qed.

Lemma collapse_dots_minus (s : jsstring) :
  collapse_dots (45%N :: s) = 45%N :: collapse_dots s.
Proof.
  unfold collapse_dots. simpl.
  pose proof (split_on_nonnil 46 s) as Hn.
  destruct (split_on 46 s) as [|p ps]; [congruence|]. simpl.
  destruct (List.length ps) as [|[|n]]; reflexivity.
Qed.

(** After [collapse_dots], a text of digits and dots has at most one dot. *)
Lemma collapse_dots_ok (s : jsstring) :
  forallb (fun c => is_digit c || (c =? 46)%N) s = true ->
  unsigned_decimal_ok (collapse_dots s) = true.
Proof.
  intros Hs. unfold unsigned_decimal_ok.
  destruct (Nat.le_gt_cases (count_unit 46 s) 1) as [Hle|Hgt].
  - rewrite collapse_dots_id by exact Hle. rewrite Hs. simpl. now apply Nat.leb_le.
  - unfold collapse_dots. pose proof (split_on_concat 46 s) as Hc.
    pose proof (split_on_length 46 s) as Hl.
    destruct (split_on 46 s) as [|p0 rest]; [discriminate|].
    replace (2 <? List.length (p0 :: rest))%nat with true by (symmetry; apply Nat.ltb_lt; lia).
    simpl in Hc.
    assert (Hcnt : count_unit 46 (p0 ++ List.concat rest) = 0%nat)
      by (rewrite Hc; apply count_unit_filter_ne).
    assert (Hall : forallb (fun c => is_digit c || (c =? 46)%N) (p0 ++ List.concat rest) = true)
      by (rewrite Hc; now apply forallb_filter).
    rewrite count_unit_app in Hcnt. rewrite forallb_app in Hall.
    apply andb_prop in Hall as [H1 H2].
    rewrite forallb_app, H1. simpl. rewrite H2.
    rewrite count_unit_app. simpl. apply Nat.leb_le. lia.
Qed.

Lemma split_on_none (sep : N) (s : jsstring) : count_unit sep s = 0%nat -> split_on sep s = [s].
Proof.
  induction s as [|c s IH]; [reflexivity|]. simpl. destruct (c =? sep)%N; [discriminate|].
  simpl. intros H. now rewrite IH.
Qed.

Lemma split_on_one (sep : N) (a b : jsstring) :
  count_unit sep a = 0%nat -> split_on sep (a ++ sep :: b) = a :: split_on sep b.
Proof.
  induction a as [|c a IH]; simpl.
  - now rewrite N.eqb_refl.
  - destruct (c =? sep)%N; [discriminate|]. simpl. intros H. now rewrite IH.
Qed.

(** With at least two dots, [collapse_dots] keeps the text before the first
    dot, that dot, and the rest without its dots. *)
Lemma collapse_dots_first (p0 rest : jsstring) :
  count_unit 46 p0 = 0%nat -> (1 <= count_unit 46 rest)%nat ->
  collapse_dots (p0 ++ 46%N :: rest) = p0 ++ [46%N] ++ filter (fun c => negb (c =? 46)%N) rest.
Proof.
  intros H0 H1. unfold collapse_dots. rewrite split_on_one by exact H0.
  cbn [List.length]. rewrite split_on_length.
  replace (2 <? S (S (count_unit 46 rest)))%nat with true by (symmetry; apply Nat.ltb_lt; lia).
  cbn [List.concat]. now rewrite split_on_concat.
Qed.

Lemma filter_dot_digits (s : jsstring) :
  forallb (fun c => is_digit c || (c =? 46)%N) s = true ->
  filter (fun c => negb (c =? 46)%N) s = filter is_digit s.
Proof.
  induction s as [|c s IH]; [reflexivity|]. cbn [forallb filter].
  intros H. apply andb_prop in H as [Hc Hs]. rewrite (IH Hs).
  destruct (N.eqb_spec c 46) as [->|Hn]; [reflexivity|].
  rewrite orb_false_r in Hc. now rewrite Hc.
Qed.

Lemma forallb_digits_count (s : jsstring) :
  forallb is_digit s = true -> count_unit 46 s = 0%nat.
Proof.
  induction s as [|c s IH]; [reflexivity|]. cbn [forallb count_unit].
  intros H. apply andb_prop in H as [Hc Hs]. rewrite (IH Hs).
  unfold is_digit in Hc. apply andb_prop in Hc as [Hc _]. apply N.leb_le in Hc.
  destruct (N.eqb_spec c 46); [lia|reflexivity].
Qed.

(** The text left once commas, foreign characters and minus signs are gone. *)
Definition keypad_digits (raw : jsstring) : jsstring :=
  filter (fun c => negb (c =? 45)%N) (filter keypad_char (replace_all_commas raw)).

Lemma keypad_digits_ok (raw : jsstring) :
  forallb (fun c => is_digit c || (c =? 46)%N) (keypad_digits raw) = true.
Proof.
  apply forallb_forall. intros c Hc. unfold keypad_digits in Hc.
  apply filter_In in Hc as [Hc Hm]. apply filter_In in Hc as [_ Hk].
  unfold keypad_char in Hk. destruct (N.eqb_spec c 45); [discriminate Hm|].
  destruct (is_digit c), (c =? 46)%N; simpl in *; congruence.
Qed.

Lemma normalizeInput_shape (raw : jsstring) (mode : Mode) :
  normalizeInput raw mode
  = if (match mode with SignedDecimal => true | UnsignedDecimal => false end)
       && starts_with [45%N] (filter keypad_char (replace_all_commas raw))
    then 45%N :: collapse_dots (keypad_digits raw)
    else collapse_dots (keypad_digits raw).
Proof.
  unfold normalizeInput, keypad_digits.
  destruct (_ && _); [apply collapse_dots_minus|reflexivity].
Qed.

Lemma digits_dots_no_minus (s : jsstring) :
  forallb (fun c => is_digit c || (c =? 46)%N) s = true ->
  filter (fun c => negb (c =? 45)%N) s = s /\ starts_with [45%N] s = false.
Proof.
  intros H. split.
  - apply filter_id. apply forallb_forall. intros c Hc.
    rewrite forallb_forall in H. specialize (H c Hc).
    destruct (N.eqb_spec c 45) as [->|]; [discriminate H|reflexivity].
  - destruct s as [|c s]; [reflexivity|]. cbn [starts_with forallb] in *.
    apply andb_prop in H as [H _].
    destruct (N.eqb_spec 45 c) as [<-|]; [discriminate H|reflexivity].
Qed.

(** A text made of digits, dots and minus signs goes through the first two
    replacements unchanged. *)
Lemma keypad_chars_fixed (s : jsstring) :
  forallb keypad_char s = true ->
  filter keypad_char (replace_all_commas s) = s.
Proof.
  intros H. unfold replace_all_commas.
  replace (map _ s) with s.
  - now apply filter_id.
  - induction s as [|c s IH]; simpl; [reflexivity|].
    simpl in H. apply andb_prop in H as [Hc Hs].
    destruct (N.eqb_spec c 44) as [->|]; [discriminate Hc|]. now rewrite <- IH.
Qed.

Lemma digit_dot_keypad (s : jsstring) :
  forallb (fun c => is_digit c || (c =? 46)%N) s = true -> forallb keypad_char s = true.
Proof.
  intros H. apply forallb_forall. intros c Hc. rewrite forallb_forall in H.
  specialize (H c Hc). unfold keypad_char.
  destruct (is_digit c), (c =? 46)%N; simpl in *; try reflexivity; try discriminate H.
  apply orb_true_r.
Qed.

(** The dot rule of [normalizeInput]: once the text is cleaned, the part
    before the first dot is kept, then one dot, then the digits of all later
    segments; a leading ['-'] is put back in signed mode. *)
Lemma normalizeInput_collapse (s : jsstring) (mode : Mode) (p0 rest : jsstring) :
  keypad_digits s = p0 ++ 46%N :: rest -> count_unit 46 p0 = 0%nat ->
  (1 <= count_unit 46 rest)%nat ->
  normalizeInput s mode
  = (if (match mode with SignedDecimal => true | UnsignedDecimal => false end)
        && starts_with [45%N] (filter keypad_char (replace_all_commas s))
     then [45%N] else []) ++ p0 ++ [46%N] ++ filter is_digit rest.
Proof.
  intros E H0 H1. pose proof (keypad_digits_ok s) as Hk. rewrite E, forallb_app in Hk.
  apply andb_prop in Hk as [_ Hk]. cbn [forallb] in Hk. apply andb_prop in Hk as [_ Hk].
  rewrite normalizeInput_shape, E, collapse_dots_first, filter_dot_digits by assumption.
  destruct (_ && _); reflexivity.
Qed.

Lemma normalizeInput_collapse_clean (mode : Mode) (p0 rest : jsstring) :
  forallb is_digit p0 = true -> forallb (fun c => is_digit c || (c =? 46)%N) rest = true ->
  (1 <= count_unit 46 rest)%nat ->
  normalizeInput (p0 ++ 46%N :: rest) mode = p0 ++ [46%N] ++ filter is_digit rest.
Proof.
  intros Hp Hr H1.
  assert (Hall : forallb (fun c => is_digit c || (c =? 46)%N) (p0 ++ 46%N :: rest) = true).
  { rewrite forallb_app. cbn [forallb]. rewrite Hr, andb_true_r.
    apply forallb_forall. intros c Hc. rewrite forallb_forall in Hp. now rewrite Hp. }
  destruct (digits_dots_no_minus _ Hall) as [Hf Hs].
  assert (Hkd : keypad_digits (p0 ++ 46%N :: rest) = p0 ++ 46%N :: rest).
  { unfold keypad_digits. rewrite keypad_chars_fixed by now apply digit_dot_keypad. exact Hf. }
  rewrite (normalizeInput_collapse _ mode p0 rest Hkd (forallb_digits_count p0 Hp) H1).
  rewrite keypad_chars_fixed by now apply digit_dot_keypad. rewrite Hs, andb_false_r.
  reflexivity.
Qed.

(** C6: whatever the input and mode, the normalised buffer matches
    [-? [0-9]* ( \. [0-9]* )?], with the leading ['-'] only in signed mode.
    Several dots collapse: the part before the first dot is kept, then that
    dot, then the digits of all later segments concatenated, for any input
    (after cleaning) and in particular for a text of digits and dots;
    e.g. ["1.2.3"] gives ["1.23"]. *)
Theorem normalizeInput_grammar :
  (forall s mode,
     keypad_grammar (match mode with SignedDecimal => true | UnsignedDecimal => false end)
                    (normalizeInput s mode) = true)
  /\ (forall s mode p0 rest,
       keypad_digits s = p0 ++ 46%N :: rest -> count_unit 46 p0 = 0%nat ->
       (1 <= count_unit 46 rest)%nat ->
       normalizeInput s mode
       = (if (match mode with SignedDecimal => true | UnsignedDecimal => false end)
             && starts_with [45%N] (filter keypad_char (replace_all_commas s))
          then [45%N] else []) ++ p0 ++ [46%N] ++ filter is_digit rest)
  /\ (forall mode p0 rest,
       forallb is_digit p0 = true -> forallb (fun c => is_digit c || (c =? 46)%N) rest = true ->
       (1 <= count_unit 46 rest)%nat ->
       normalizeInput (p0 ++ 46%N :: rest) mode = p0 ++ [46%N] ++ filter is_digit rest)
  /\ normalizeInput (js "1.2.3") SignedDecimal = js "1.23"
  /\ normalizeInput (js "1.2.3") UnsignedDecimal = js "1.23".
Proof.
  split; [|split; [exact normalizeInput_collapse|split; [exact normalizeInput_collapse_clean|]]];
    [|vm_compute; split; reflexivity].
  intros s mode. rewrite normalizeInput_shape.
  pose proof (collapse_dots_ok _ (keypad_digits_ok s)) as Hq.
  destruct (_ && _) eqn:Hb.
  - simpl. apply andb_prop in Hb as [Ha _]. now rewrite Ha, Hq.
  - destruct (collapse_dots (keypad_digits s)) as [|c b] eqn:Hc; [reflexivity|].
    simpl. destruct (N.eqb_spec c 45) as [->|]; [|exact Hq].
    unfold unsigned_decimal_ok in Hq. simpl in Hq. discriminate Hq.
Qed.

Lemma normalizeInput_grammar_witness :
  normalizeInput (js "-12.5x.0,7") SignedDecimal = js "-12.507"
  /\ normalizeInput (js "3.1.4.1") UnsignedDecimal = js "3.141".
Proof.
  destruct normalizeInput_grammar as (_ & Hg & Hc & _). split.
  - rewrite (Hg (js "-12.5x.0,7") SignedDecimal (js "12") (js "5.0.7")); vm_compute; first [reflexivity | lia].
  - change (js "3.1.4.1") with (js "3" ++ 46%N :: js "1.4.1").
    rewrite (Hc UnsignedDecimal (js "3") (js "1.4.1")); vm_compute; first [reflexivity | lia].
Defined.

(** C7: the normaliser is idempotent. *)
Theorem normalizeInput_idempotent (s : jsstring) (mode : Mode) :
  normalizeInput (normalizeInput s mode) mode = normalizeInput s mode.
Proof.
  set (q := collapse_dots (keypad_digits s)).
  assert (Hq : unsigned_decimal_ok q = true) by apply collapse_dots_ok, keypad_digits_ok.
  unfold unsigned_decimal_ok in Hq. apply andb_prop in Hq as [Hqd Hqc].
  apply Nat.leb_le in Hqc.
  destruct (digits_dots_no_minus q Hqd) as [Hfq Hsq].
  rewrite (normalizeInput_shape s mode). fold q.
  destruct (_ && _) eqn:Hb.
  - apply andb_prop in Hb as [Ha _].
    rewrite normalizeInput_shape. unfold keypad_digits.
    rewrite keypad_chars_fixed by (simpl; apply digit_dot_keypad, Hqd).
    rewrite Ha. simpl. rewrite Hfq. now rewrite collapse_dots_id.
  - rewrite normalizeInput_shape. unfold keypad_digits.
    rewrite keypad_chars_fixed by (apply digit_dot_keypad, Hqd).
    rewrite Hsq, andb_false_r, Hfq. now rewrite collapse_dots_id.
Qed.

(** ** Trimming and counting *)

Lemma trim_all_space (v : jsstring) : forallb is_js_space v = true -> trim v = [].
Proof.
  intros H. unfold trim, trim_end.
  replace (trim_start v) with (@nil N); [reflexivity|].
  induction v as [|c v IH]; simpl in *; [reflexivity|].
  apply andb_prop in H as [Hc Hv]. rewrite Hc. now apply IH.
Qed.

Lemma count_unit_rev (u : N) (s : jsstring) : count_unit u (rev s) = count_unit u s.
Proof.
  induction s as [|c s IH]; simpl; [reflexivity|].
  rewrite count_unit_app, IH. simpl. lia.
Qed.

Lemma count_unit_trim_start (u : N) (s : jsstring) :
  is_js_space u = false -> count_unit u (trim_start s) = count_unit u s.
Proof.
  intros Hu. induction s as [|c s IH]; simpl; [reflexivity|].
  destruct (is_js_space c) eqn:Hc; [|reflexivity].
  destruct (N.eqb_spec c u) as [->|]; [congruence|]. exact IH.
Qed.

Lemma count_unit_trim (u : N) (s : jsstring) :
  is_js_space u = false -> count_unit u (trim s) = count_unit u s.
Proof.
  intros Hu. unfold trim, trim_end.
  rewrite count_unit_rev, count_unit_trim_start, count_unit_rev by exact Hu.
  now apply count_unit_trim_start.
Qed.

Lemma count_replace_first_comma (s : jsstring) :
  (count_unit 44 s <= S (count_unit 44 (replace_first_comma s)))%nat.
Proof.
  induction s as [|c s IH]; simpl; [lia|].
  destruct (N.eqb_spec c 44); simpl; [lia|].
  destruct (N.eqb_spec c 44); [contradiction|lia].
Qed.

(** ** Number on a text with a comma *)

(** The states the reader reaches never expect a comma inside "Infinity". *)
Definition lit_inv (st : lit_state) : bool :=
  match st with LInf _ rest => (count_unit 44 rest =? 0)%nat | _ => true end.

Lemma lit_step_inv (st : lit_state) (c : N) :
  lit_inv st = true -> lit_inv (lit_step st c) = true.
Proof.
  intros H. destruct st; cbn [lit_step];
    repeat match goal with
           | |- context [if ?b then _ else _] => destruct b
           | |- context [match radix_digit ?b ?c with Some _ => _ | None => _ end] =>
               destruct (radix_digit b c)
           end; try reflexivity.
  destruct rest as [|x r]; [reflexivity|].
  destruct (c =? x)%N; [|reflexivity].
  simpl in H |- *. apply Nat.eqb_eq in H. apply Nat.eqb_eq. lia.
Qed.

Lemma lit_step_comma (st : lit_state) :
  lit_inv st = true -> lit_step st 44 = LReject.
Proof.
  intros H. destruct st; try reflexivity.
  destruct rest as [|x r]; [reflexivity|]. simpl in H. cbn [lit_step].
  destruct (N.eqb_spec 44 x) as [<-|]; [discriminate H|reflexivity].
Qed.

Lemma fold_lit_reject (t : jsstring) : fold_left lit_step t LReject = LReject.
Proof. induction t; simpl; auto. Qed.

Lemma fold_lit_comma (t : jsstring) (st : lit_state) :
  lit_inv st = true -> (1 <= count_unit 44 t)%nat -> fold_left lit_step t st = LReject.
Proof.
  revert st. induction t as [|c t IH]; simpl; intros st Hst Hc; [lia|].
  destruct (N.eqb_spec c 44) as [->|].
  - rewrite lit_step_comma by exact Hst. apply fold_lit_reject.
  - apply IH; [now apply lit_step_inv | lia].
Qed.

Lemma Number_comma (s : jsstring) : (1 <= count_unit 44 s)%nat -> Number s = JNaN.
Proof.
  intros Hc. unfold Number.
  rewrite <- (count_unit_trim 44 s) in Hc by reflexivity.
  destruct (trim s) as [|c t]; [simpl in Hc; lia|].
  now rewrite fold_lit_comma.
Qed.

(** On finite operands the comparison is the order of the rationals. *)
Lemma js_lt_fin (a b : Q) : js_lt (JFin a) (JFin b) = true <-> (a < b)%Q.
Proof.
  simpl. rewrite negb_true_iff. split.
  - intros H. apply Qnot_le_lt. intros Hle. apply Qle_bool_iff in Hle. congruence.
  - intros H. destruct (Qle_bool b a) eqn:E; [|reflexivity].
    apply Qle_bool_iff in E. exfalso. now apply (Qlt_not_le a b).
Qed.

(** ** Claims on app/(app)/logs/add.tsx *)

(** C5: [parseNumber] gives [null] on empty or blank input, ["nan"] on the
    incomplete inputs ["-"], ["."], ["-."], and otherwise the value of
    [Number] on the text with its comma made a period, ["nan"] when that is
    not finite; ["3,5"] gives 3.5. *)
Theorem parseNumber_three_way :
  (forall v, forallb is_js_space v = true -> parseNumber v = PNull)
  /\ (forall v, trim v = js "-" \/ trim v = js "." \/ trim v = js "-." -> parseNumber v = PNaN)
  /\ (forall v,
        trim v <> [] -> trim v <> js "-" -> trim v <> js "." -> trim v <> js "-." ->
        parseNumber v
        = match Number (replace_first_comma (trim v)) with
          | JFin q => PValue q
          | JNaN | JInf _ => PNaN
          end)
  /\ parseNumber (js "") = PNull
  /\ parseNumber (js "-") = PNaN
  /\ parseNumber (js "3,5") = PValue (7 # 2).
Proof.
  split; [|split; [|split]].
  - intros v Hv. unfold parseNumber. now rewrite trim_all_space.
  - intros v Hv. unfold parseNumber.
    destruct Hv as [H|[H|H]]; rewrite H; reflexivity.
  - intros v H0 H1 H2 H3. unfold parseNumber.
    destruct (trim v) as [|c r]; [congruence|].
    destruct (list_eq_dec N.eq_dec (c :: r) (js "-")); [congruence|].
    destruct (list_eq_dec N.eq_dec (c :: r) (js ".")); [congruence|].
    destruct (list_eq_dec N.eq_dec (c :: r) (js "-.")); [congruence|].
    destruct (Number _); reflexivity.
  - vm_compute. repeat split.
Qed.

Lemma parseNumber_three_way_witness :
  parseNumber (js " 	 ") = PNull
  /\ parseNumber (js " -. ") = PNaN
  /\ parseNumber (js "-0,25") = PValue (-1 # 4)
  /\ parseNumber (js "1e999") = PNaN.
Proof.
  destruct parseNumber_three_way as [Hnull [Hnan [Hval _]]].
  split; [apply Hnull; vm_compute; reflexivity|].
  split; [apply Hnan; right; right; vm_compute; reflexivity|].
  split; (rewrite Hval by (vm_compute; discriminate); vm_compute; reflexivity).
Defined.

(** C10: [parseNumber] replaces only the first comma, so any input with two
    or more commas is ["nan"]; e.g. ["1,2,3"]. *)
Theorem parseNumber_two_commas :
  (forall v, (2 <= count_unit 44 v)%nat -> parseNumber v = PNaN)
  /\ parseNumber (js "1,2,3") = PNaN.
Proof.
  split; [|vm_compute; reflexivity].
  intros v Hv. unfold parseNumber.
  rewrite <- (count_unit_trim 44 v) in Hv by reflexivity.
  destruct (trim v) as [|c r]; [simpl in Hv; lia|].
  destruct (list_eq_dec N.eq_dec (c :: r) (js "-")) as [E|]; [rewrite E in Hv; simpl in Hv; lia|].
  destruct (list_eq_dec N.eq_dec (c :: r) (js ".")) as [E|]; [rewrite E in Hv; simpl in Hv; lia|].
  destruct (list_eq_dec N.eq_dec (c :: r) (js "-.")) as [E|]; [rewrite E in Hv; simpl in Hv; lia|].
  rewrite Number_comma; [reflexivity|].
  pose proof (count_replace_first_comma (c :: r)). lia.
Qed.

Lemma parseNumber_two_commas_witness : parseNumber (js " 12,5,0 ") = PNaN.
Proof. apply (proj1 parseNumber_two_commas). vm_compute. lia. Defined.

(** C3: the effect leaves [damaged] if and only if the status already was
    [damaged]: it never changes [damaged], and from [ok] or [warning] it only
    yields [ok] or [warning]. *)
Theorem autoWarning_damaged_sticky :
  (forall chiller tempC, autoWarning chiller tempC damaged = damaged)
  /\ (forall chiller tempC status,
        status <> damaged ->
        autoWarning chiller tempC status = ok \/ autoWarning chiller tempC status = warning).
Proof.
  split.
  - intros [ch|] tempC; simpl; [|reflexivity].
    destruct (parseNumber tempC); reflexivity.
  - intros chiller tempC status Hs.
    destruct status; [| |congruence];
      destruct chiller as [ch|]; simpl; auto;
      destruct (parseNumber tempC); auto;
      destruct (minTemp ch), (maxTemp ch); auto;
      repeat match goal with |- context [if ?b then _ else _] => destruct b end; auto.
Qed.

Definition chiller_2_8 : Chiller :=
  {| id := js "c1"; ownerId := js "u1"; name := js "Fridge"; branchId := js "b1";
     minTemp := Some (JFin 2); maxTemp := Some (JFin 8) |}.

Lemma autoWarning_damaged_sticky_witness :
  autoWarning (Some chiller_2_8) (js "40") warning = ok
  \/ autoWarning (Some chiller_2_8) (js "40") warning = warning.
Proof. apply (proj2 autoWarning_damaged_sticky). discriminate. Defined.

Lemma option_test_exists (o : option jsnum) (f : jsnum -> bool) :
  match o with Some m => f m | None => false end = true <-> exists m, o = Some m /\ f m = true.
Proof.
  destruct o as [m|]; split.
  - eauto.
  - intros [m' [Hm Hf]]. injection Hm as <-. exact Hf.
  - discriminate.
  - intros [m' [Hm _]]. discriminate Hm.
Qed.

(** The status set from a parsed temperature, when the status is not [damaged]. *)
Lemma autoWarning_value (ch : Chiller) (tempC : jsstring) (t : Q) (status : Status) :
  parseNumber tempC = PValue t -> status <> damaged ->
  autoWarning (Some ch) tempC status
  = if match minTemp ch with Some m => js_lt (JFin t) m | None => false end
       || match maxTemp ch with Some m => js_lt m (JFin t) | None => false end
    then warning else ok.
Proof.
  intros Hp Hs. unfold autoWarning. rewrite Hp.
  replace (Status_eqb status damaged) with false
    by (destruct status; [reflexivity | reflexivity | congruence]).
  destruct (minTemp ch), (maxTemp ch); reflexivity.
Qed.

(** C4: with a parsed temperature [t] and a status other than [damaged],
    the effect yields [ok] when no bound is configured; otherwise [warning]
    exactly when [t < minTemp] or [t > maxTemp] for a configured bound, and
    [ok] otherwise.  With the range 2..8: 10 and 1 give [warning], 5 and the
    bounds 2 and 8 give [ok]. *)
Theorem autoWarning_thresholds :
  (forall ch tempC t status,
     parseNumber tempC = PValue t -> status <> damaged ->
     (minTemp ch = None -> maxTemp ch = None -> autoWarning (Some ch) tempC status = ok)
     /\ (autoWarning (Some ch) tempC status = warning <->
           (exists m, minTemp ch = Some m /\ js_lt (JFin t) m = true)
           \/ (exists m, maxTemp ch = Some m /\ js_lt m (JFin t) = true))
     /\ (autoWarning (Some ch) tempC status <> warning ->
           autoWarning (Some ch) tempC status = ok))
  /\ map (fun s => autoWarning (Some chiller_2_8) (js s) ok) ["10"; "5"; "1"; "2"; "8"]%string
     = [warning; ok; warning; ok; ok].
Proof.
  split; [|vm_compute; reflexivity].
  intros ch tempC t status Hp Hs. rewrite (autoWarning_value ch tempC t status Hp Hs).
  split; [intros -> ->; reflexivity|].
  pose proof (option_test_exists (minTemp ch) (fun m => js_lt (JFin t) m)) as H1.
  pose proof (option_test_exists (maxTemp ch) (fun m => js_lt m (JFin t))) as H2.
  cbv beta in H1, H2. rewrite <- H1, <- H2, <- orb_true_iff.
  destruct (_ || _); (split; [split; intros H; try reflexivity; discriminate H|]).
  - intros H. contradiction.
  - intros _. reflexivity.
Qed.

Lemma autoWarning_thresholds_witness :
  autoWarning (Some chiller_2_8) (js "8,5") warning = warning.
Proof.
  apply (proj1 autoWarning_thresholds chiller_2_8 (js "8,5") (17 # 2) warning);
    [vm_compute; reflexivity | discriminate |].
  right. exists (JFin 8). split; [reflexivity|vm_compute; reflexivity].
Defined.

(* ================================================================== *)
(** * Further properties of the code *)

(** The normalised buffer is in the grammar of its mode. *)
Lemma normalizeInput_in_grammar (s : jsstring) (mode : Mode) :
  keypad_grammar (match mode with SignedDecimal => true | UnsignedDecimal => false end)
                 (normalizeInput s mode) = true.
Proof.
  rewrite normalizeInput_shape.
  pose proof (collapse_dots_ok _ (keypad_digits_ok s)) as Hq.
  destruct (_ && _) eqn:Hb.
  - simpl. apply andb_prop in Hb as [Ha _]. now rewrite Ha, Hq.
  - destruct (collapse_dots (keypad_digits s)) as [|c b] eqn:Hc; [reflexivity|].
    simpl. destruct (N.eqb_spec c 45) as [->|]; [|exact Hq].
    unfold unsigned_decimal_ok in Hq. simpl in Hq. discriminate Hq.
Qed.

(** ** Keypad buffers *)

Lemma keypad_grammar_iff (a : bool) (s : jsstring) :
  keypad_grammar a s = true <->
  unsigned_decimal_ok s = true
  \/ (a = true /\ exists b, s = 45%N :: b /\ unsigned_decimal_ok b = true).
Proof.
  destruct s as [|c b]; simpl.
  - split; [left; reflexivity|reflexivity].
  - destruct (N.eqb_spec c 45) as [->|Hc].
    + split.
      * intros H. apply andb_prop in H as [-> H]. right. eauto.
      * intros [H|[-> [b' [Hb Hok]]]].
        -- unfold unsigned_decimal_ok in H. simpl in H. discriminate H.
        -- injection Hb as <-. exact Hok.
    + split; [now left|]. intros [H|[_ [b' [Hb _]]]]; [exact H|]. injection Hb. congruence.
Qed.

Lemma unsigned_ok_no_minus (s : jsstring) :
  unsigned_decimal_ok s = true -> starts_with [45%N] s = false.
Proof.
  unfold unsigned_decimal_ok. intros H. apply andb_prop in H as [H _].
  exact (proj2 (digits_dots_no_minus s H)).
Qed.

(** A buffer of the grammar is left as it is by the normaliser. *)
Lemma normalizeInput_grammar_fixed (s : jsstring) (mode : Mode) :
  keypad_grammar (match mode with SignedDecimal => true | UnsignedDecimal => false end) s = true ->
  normalizeInput s mode = s.
Proof.
  intros H. apply keypad_grammar_iff in H.
  rewrite normalizeInput_shape. unfold keypad_digits.
  destruct H as [H|[Ha [b [-> Hb]]]].
  - pose proof H as H'. unfold unsigned_decimal_ok in H'.
    apply andb_prop in H' as [Hd Hc]. apply Nat.leb_le in Hc.
    rewrite keypad_chars_fixed by now apply digit_dot_keypad.
    rewrite (unsigned_ok_no_minus s H), andb_false_r.
    rewrite (proj1 (digits_dots_no_minus s Hd)). now apply collapse_dots_id.
  - pose proof Hb as H'. unfold unsigned_decimal_ok in H'.
    apply andb_prop in H' as [Hd Hc]. apply Nat.leb_le in Hc.
    rewrite keypad_chars_fixed by (simpl; now apply digit_dot_keypad).
    rewrite Ha. simpl. rewrite (proj1 (digits_dots_no_minus b Hd)).
    now rewrite collapse_dots_id.
Qed.

Lemma unsigned_ok_app_digit (v : jsstring) (d : N) :
  unsigned_decimal_ok v = true -> is_digit d = true -> unsigned_decimal_ok (v ++ [d]) = true.
Proof.
  unfold unsigned_decimal_ok. intros H Hd. apply andb_prop in H as [H1 H2].
  apply Nat.leb_le in H2. rewrite forallb_app, H1, count_unit_app. simpl. rewrite Hd. simpl.
  destruct (N.eqb_spec d 46) as [->|]; [discriminate Hd|]. apply Nat.leb_le. lia.
Qed.

Lemma count_unit_existsb (u : N) (s : jsstring) :
  existsb (N.eqb u) s = false -> count_unit u s = 0%nat.
Proof.
  induction s as [|c s IH]; simpl; [reflexivity|]. intros H.
  apply orb_false_iff in H as [H1 H2]. rewrite IH by exact H2.
  destruct (N.eqb_spec c u) as [->|]; [now rewrite N.eqb_refl in H1|reflexivity].
Qed.

Lemma unsigned_ok_app_dot (v : jsstring) :
  unsigned_decimal_ok v = true -> existsb (N.eqb 46) v = false ->
  unsigned_decimal_ok (v ++ [46%N]) = true.
Proof.
  unfold unsigned_decimal_ok. intros H Hn. apply andb_prop in H as [H1 _].
  rewrite forallb_app, H1, count_unit_app, count_unit_existsb by exact Hn. reflexivity.
Qed.

Lemma unsigned_ok_head (c : N) (r : jsstring) :
  unsigned_decimal_ok (c :: r) = true -> c <> 45%N /\ unsigned_decimal_ok r = true.
Proof.
  unfold unsigned_decimal_ok. simpl. intros H.
  apply andb_prop in H as [H1 H2]. apply andb_prop in H1 as [Hc Hr].
  split.
  - intros ->. discriminate Hc.
  - rewrite Hr. apply Nat.leb_le in H2. apply Nat.leb_le.
    destruct (c =? 46)%N; simpl in H2; lia.
Qed.

Lemma unsigned_ok_removelast (v : jsstring) :
  unsigned_decimal_ok v = true -> unsigned_decimal_ok (removelast v) = true.
Proof.
  destruct v as [|c r]; [reflexivity|]. intros H.
  rewrite (app_removelast_last c (l := c :: r)) in H by discriminate.
  unfold unsigned_decimal_ok in *. apply andb_prop in H as [H1 H2].
  rewrite forallb_app in H1. apply andb_prop in H1 as [-> _].
  apply Nat.leb_le in H2. rewrite count_unit_app in H2. apply Nat.leb_le. lia.
Qed.

(** The buffer after any key press satisfies the grammar of its mode. *)
Lemma appendChar_grammar (v k : jsstring) (mode : Mode) :
  let a := match mode with SignedDecimal => true | UnsignedDecimal => false end in
  keypad_grammar a v = true -> keypad_grammar a (appendChar v k mode) = true.
Proof.
  intros a Hv. pose proof Hv as Hv'. apply keypad_grammar_iff in Hv'. unfold appendChar.
  destruct (list_eq_dec N.eq_dec k key_sign) as [_|_].
  - destruct mode; [|exact Hv]. apply keypad_grammar_iff.
    destruct v as [|c r].
    + right. split; [reflexivity|]. exists []. split; reflexivity.
    + destruct (N.eqb_spec c 45) as [->|Hc].
      * destruct Hv' as [H|[_ [b [Hb Hok]]]].
        -- exfalso. apply (proj1 (unsigned_ok_head _ _ H)). reflexivity.
        -- injection Hb as <-. now left.
      * right. split; [reflexivity|]. exists (c :: r). split; [reflexivity|].
        destruct Hv' as [H|[_ [b [Hb _]]]]; [exact H|]. injection Hb. congruence.
  - destruct (list_eq_dec N.eq_dec k [46%N]) as [_|_].
    + destruct v as [|c r]; [reflexivity|].
      destruct (existsb (N.eqb 46) (c :: r)) eqn:Hd; [exact Hv|].
      apply keypad_grammar_iff. destruct Hv' as [H|[Ha [b [Hb Hok]]]].
      * left. now apply unsigned_ok_app_dot.
      * right. split; [exact Ha|]. exists (b ++ [46%N]). rewrite Hb. split; [reflexivity|].
        apply unsigned_ok_app_dot; [exact Hok|]. rewrite Hb in Hd. simpl in Hd. exact Hd.
    + destruct k as [|d [|x k]]; try exact Hv.
      destruct (is_digit d) eqn:Hd; [|exact Hv].
      apply keypad_grammar_iff. destruct Hv' as [H|[Ha [b [Hb Hok]]]].
      * left. now apply unsigned_ok_app_digit.
      * right. split; [exact Ha|]. exists (b ++ [d]). rewrite Hb.
        split; [reflexivity|]. now apply unsigned_ok_app_digit.
Qed.

Lemma backspace_grammar (v : jsstring) (a : bool) :
  keypad_grammar a v = true -> keypad_grammar a (backspace v) = true.
Proof.
  intros Hv. apply keypad_grammar_iff in Hv. apply keypad_grammar_iff.
  destruct v as [|c r]; [now left|]. unfold backspace.
  destruct Hv as [H|[Ha [b [Hb Hok]]]].
  - left. now apply unsigned_ok_removelast.
  - injection Hb as -> ->. destruct b as [|x b]; [now left|].
    right. split; [exact Ha|]. exists (removelast (x :: b)). split; [reflexivity|].
    now apply unsigned_ok_removelast.
Qed.

(** X1: the buffers the normaliser leaves unchanged are exactly those of the
    grammar [-? [0-9]* ( \. [0-9]* )?] of the mode. *)
Theorem normalizeInput_fixed_iff (s : jsstring) (mode : Mode) :
  normalizeInput s mode = s
  <-> keypad_grammar (match mode with SignedDecimal => true | UnsignedDecimal => false end) s = true.
Proof.
  split.
  - intros H. rewrite <- H. apply normalizeInput_in_grammar.
  - apply normalizeInput_grammar_fixed.
Qed.

Lemma pressKey_fixed (v k : jsstring) (mode : Mode) :
  keypad_grammar (match mode with SignedDecimal => true | UnsignedDecimal => false end) v = true ->
  pressKey v k mode = appendChar v k mode.
Proof.
  intros Hv. unfold pressKey. apply normalizeInput_grammar_fixed.
  now apply appendChar_grammar.
Qed.

(** X2: on a buffer of the grammar, the normalisation after a key press
    changes nothing: the new buffer is what [appendChar] builds. *)
Theorem pressKey_no_normalization (v k : jsstring) (mode : Mode) :
  keypad_grammar (match mode with SignedDecimal => true | UnsignedDecimal => false end) v = true ->
  pressKey v k mode = appendChar v k mode.
Proof.
  exact (pressKey_fixed v k mode).
Qed.

Lemma pressKey_no_normalization_witness :
  pressKey (js "-12") (js "5") SignedDecimal = js "-125"
  /\ pressKey (js "12.5") (js ".") UnsignedDecimal = js "12.5".
Proof.
  split; rewrite pressKey_no_normalization by (vm_compute; reflexivity); vm_compute; reflexivity.
Defined.

(** X3: the sign key is inert in unsigned mode, and in signed mode pressing
    it twice gives back the buffer. *)
Theorem pressKey_sign_involutive (v : jsstring) :
  (keypad_grammar false v = true -> pressKey v key_sign UnsignedDecimal = v)
  /\ (keypad_grammar true v = true ->
      pressKey (pressKey v key_sign SignedDecimal) key_sign SignedDecimal = v).
Proof.
  split; intros Hv.
  - rewrite pressKey_fixed by exact Hv. reflexivity.
  - pose proof (appendChar_grammar v key_sign SignedDecimal Hv) as H1. simpl in H1.
    rewrite (pressKey_fixed v) by exact Hv.
    rewrite pressKey_fixed by exact H1.
    unfold appendChar. simpl.
    destruct v as [|c r]; [reflexivity|].
    destruct (N.eqb_spec c 45) as [->|Hc].
    + destruct r as [|x r]; [reflexivity|].
      destruct (N.eqb_spec x 45) as [->|]; [|reflexivity].
      apply keypad_grammar_iff in Hv.
      destruct Hv as [H|[_ [b [Hb Hok]]]].
      * exfalso. now apply (proj1 (unsigned_ok_head _ _ H)).
      * injection Hb as <-. exfalso. now apply (proj1 (unsigned_ok_head _ _ Hok)).
    + simpl. reflexivity.
Qed.

Lemma pressKey_sign_involutive_witness :
  pressKey (js "3.5") key_sign UnsignedDecimal = js "3.5"
  /\ pressKey (pressKey (js "3.5") key_sign SignedDecimal) key_sign SignedDecimal = js "3.5".
Proof.
  split; [apply (proj1 (pressKey_sign_involutive (js "3.5")))
         |apply (proj2 (pressKey_sign_involutive (js "3.5")))]; vm_compute; reflexivity.
Defined.

(** X4: on a buffer of the grammar, the backspace key removes exactly the
    last character, and does nothing on an empty buffer. *)
Theorem pressBackspace_removelast (v : jsstring) (mode : Mode) :
  keypad_grammar (match mode with SignedDecimal => true | UnsignedDecimal => false end) v = true ->
  pressBackspace v mode = removelast v.
Proof.
  intros Hv. unfold pressBackspace.
  rewrite normalizeInput_grammar_fixed by now apply backspace_grammar.
  destruct v; reflexivity.
Qed.

Lemma pressBackspace_removelast_witness :
  pressBackspace (js "-1.") SignedDecimal = js "-1" /\ pressBackspace [] UnsignedDecimal = [].
Proof.
  split; rewrite pressBackspace_removelast by (vm_compute; reflexivity); reflexivity.
Defined.

(** ** Signs of parsed numbers *)

(** No state reached without reading ['-'] carries a negative sign. *)
Definition lit_unsigned (st : lit_state) : bool :=
  match st with
  | LSign n | LInt n _ | LDot n | LFrac n _ _ | LExpE n _ _
  | LExpSign n _ _ _ | LExp n _ _ _ _ | LInf n _ => negb n
  | LStart | LZero | LRadix _ _ _ | LReject => true
  end.

Lemma lit_step_unsigned (st : lit_state) (c : N) :
  c <> 45%N -> lit_unsigned st = true -> lit_unsigned (lit_step st c) = true.
Proof.
  intros Hc H. destruct st; cbn [lit_step];
    repeat match goal with
           | |- context [if ?b then _ else _] => let E := fresh "E" in destruct b eqn:E
           | |- context [match radix_digit ?b ?c with Some _ => _ | None => _ end] =>
               destruct (radix_digit b c)
           | |- context [match ?rest with [] => _ | _ :: _ => _ end] => destruct rest
           end;
    try reflexivity; try exact H.
  apply N.eqb_eq in E0. contradiction.
Qed.

Lemma fold_lit_unsigned (t : jsstring) (st : lit_state) :
  (forall c, In c t -> c <> 45%N) -> lit_unsigned st = true ->
  lit_unsigned (fold_left lit_step t st) = true.
Proof.
  revert st. induction t as [|c t IH]; simpl; intros st Ht Hst; [exact Hst|].
  apply IH; [intros x Hx; apply Ht; now right|].
  apply lit_step_unsigned; [apply Ht; now left|exact Hst].
Qed.

Lemma Qpow2_nonneg (k : Z) : (0 <= Qpow2 k)%Q.
Proof.
  unfold Qpow2. destruct (0 <=? k)%Z.
  - change 0%Q with (inject_Z 0). rewrite <- Zle_Qle. apply Z.pow_nonneg. lia.
  - unfold Qle. simpl. lia.
Qed.

Lemma round_half_even_nonneg (p d : Z) : (0 <= p)%Z -> (0 < d)%Z -> (0 <= round_half_even p d)%Z.
Proof.
  intros Hp Hd. unfold round_half_even.
  assert (0 <= p / d)%Z by (apply Z.div_pos; lia).
  destruct (Z.compare _ _); [destruct (Z.even _)|..]; lia.
Qed.

Lemma Qred_nonneg (x : Q) : (0 <= x)%Q -> (0 <= Qred x)%Q.
Proof. intros H. exact (proj2 (Qred_le 0 x) H). Qed.

Lemma round_pos_unsigned (n d : Z) (v : Q) :
  (0 < n)%Z -> (0 < d)%Z -> round_pos false n d = JFin v -> (0 <= v)%Q.
Proof.
  intros Hn Hd. unfold round_pos.
  set (e := Z.max _ (-1022)).
  set (m := if (0 <=? 52 - e)%Z then _ else _).
  assert (Hm : (0 <= m)%Z).
  { unfold m. destruct (0 <=? 52 - e)%Z eqn:E; apply round_half_even_nonneg.
    - apply Z.leb_le in E. apply Z.mul_nonneg_nonneg; [lia|apply Z.pow_nonneg; lia].
    - exact Hd.
    - lia.
    - apply Z.leb_gt in E. apply Z.mul_pos_pos; [exact Hd|apply Z.pow_pos_nonneg; lia]. }
  assert (Hq : (0 <= Qred (inject_Z m * Qpow2 (e - 52)))%Q).
  { apply Qred_nonneg, Qmult_le_0_compat; [|apply Qpow2_nonneg].
    change 0%Q with (inject_Z 0). now rewrite <- Zle_Qle. }
  destruct (Qle_bool _ _); intros H; [discriminate H|].
  injection H as Hv. rewrite <- Hv. exact Hq.
Qed.
Lemma round_binary64_unsigned (q v : Q) :
  round_binary64 false q = JFin v -> (0 <= v)%Q.
Proof.
  unfold round_binary64. destruct (Qnum q) as [|n|n]; intros H.
  - injection H as <-. apply Qle_refl.
  - eapply round_pos_unsigned; [| |exact H]; lia.
  - injection H as <-. apply Qle_refl.
Qed.

Lemma lit_value_unsigned (st : lit_state) (v : Q) :
  lit_unsigned st = true -> lit_value st = JFin v -> (0 <= v)%Q.
Proof.
  intros Hs H. destruct st; simpl in Hs, H; try discriminate H;
    try (apply negb_true_iff in Hs; subst);
    try (now apply round_binary64_unsigned in H).
  - injection H as <-. apply Qle_refl.
  - destruct rest; discriminate H.
  - destruct seen; [now apply round_binary64_unsigned in H|discriminate H].
Qed.

Lemma in_trim (c : N) (s : jsstring) : In c (trim s) -> In c s.
Proof.
  assert (Hs : forall t, In c (trim_start t) -> In c t).
  { induction t as [|x t IH]; simpl; [tauto|].
    destruct (is_js_space x); simpl; auto. }
  unfold trim, trim_end. intros H.
  apply in_rev, Hs, in_rev, Hs in H. exact H.
Qed.

Lemma in_replace_first_comma (c : N) (s : jsstring) :
  In c (replace_first_comma s) -> In c s \/ c = 46%N.
Proof.
  induction s as [|x s IH]; simpl; [tauto|].
  destruct (x =? 44)%N; simpl; intros [H|H]; auto.
  destruct (IH H); auto.
Qed.

Lemma Number_unsigned (s : jsstring) (v : Q) :
  (forall c, In c s -> c <> 45%N) -> Number s = JFin v -> (0 <= v)%Q.
Proof.
  intros Hs H. unfold Number in H.
  destruct (trim s) as [|x t] eqn:Ht.
  - injection H as <-. apply Qle_refl.
  - apply (lit_value_unsigned (fold_left lit_step (x :: t) LStart)); [|exact H].
    apply fold_lit_unsigned; [|reflexivity].
    intros c Hc. apply Hs, in_trim. now rewrite Ht.
Qed.

(** X5: a text without a minus sign never parses to a negative number; in
    particular the humidity, typed on the unsigned keypad, is never negative. *)
Theorem parseNumber_unsigned :
  (forall v q, ~ In 45%N v -> parseNumber v = PValue q -> (0 <= q)%Q)
  /\ (forall s q, parseNumber (normalizeInput s UnsignedDecimal) = PValue q -> (0 <= q)%Q).
Proof.
  assert (G : forall v q, ~ In 45%N v -> parseNumber v = PValue q -> (0 <= q)%Q).
  { intros v q Hv H. unfold parseNumber in H.
    destruct (trim v) as [|c r] eqn:Ht; [discriminate H|].
    repeat (destruct (list_eq_dec _ _ _); [discriminate H|]).
    destruct (Number _) eqn:HN; try discriminate H. injection H as <-.
    refine (Number_unsigned _ _ _ HN).
    intros x Hx ->. apply in_replace_first_comma in Hx as [Hx|Hx]; [|discriminate Hx].
    apply Hv, in_trim. now rewrite Ht. }
  split; [exact G|].
  intros s q. apply G. intros Hin.
  pose proof (normalizeInput_in_grammar s UnsignedDecimal) as Hg. simpl in Hg.
  apply keypad_grammar_iff in Hg as [Hg|[Hf _]]; [|discriminate Hf].
  unfold unsigned_decimal_ok in Hg. apply andb_prop in Hg as [Hg _].
  rewrite forallb_forall in Hg. specialize (Hg _ Hin). discriminate Hg.
Qed.

Lemma parseNumber_unsigned_witness :
  (0 <= 7 # 2)%Q /\ (0 <= 5 # 1)%Q.
Proof.
  split.
  - apply (proj1 parseNumber_unsigned (js "3,5")); [vm_compute; intros [H|[H|[H|[]]]]; discriminate H|].
    vm_compute. reflexivity.
  - apply (proj2 parseNumber_unsigned (js "-5")). vm_compute. reflexivity.
Defined.

(** ** Percent-encoding of arbitrary UTF-16 text *)

(** Well-formed UTF-16: every high surrogate is followed by a low one and no
    low surrogate stands alone. *)
Fixpoint wf_utf16 (s : jsstring) : bool :=
  match s with
  | [] => true
  | c :: r =>
      if is_low_surrogate c then false
      else if is_high_surrogate c then
        match r with
        | c2 :: r2 => is_low_surrogate c2 && wf_utf16 r2
        | [] => false
        end
      else wf_utf16 r
  end.

(** The UTF-16 code units of a code point. *)
Definition utf16_units (cp : N) : jsstring :=
  if (cp <? 65536)%N then [cp]
  else [(55296 + (cp - 65536) / 1024)%N; (56320 + (cp - 65536) mod 1024)%N].

(** The decoder after reading the escape of the octet [b] in a pending
    sequence [p] (the [DPct2] branch of [decode_from]). *)
Definition dec_byte (p : pending) (b : N) (r : jsstring) : completion jsstring :=
  match p with
  | PStart =>
      if (b <? 128)%N then cmap (cons b) (decode_from DText r)
      else match utf8_length b with
           | Some n => decode_from (DNeedPct (PCont (n - 1) n (utf8_lead_bits b n))) r
           | None => Throw URIError
           end
  | PCont k n acc =>
      if (N.land b 192 =? 128)%N then
        let acc' := (acc * 64 + b mod 64)%N in
        if (k =? 1)%N then
          match utf8_finish n acc' with
          | Some units => cmap (app units) (decode_from DText r)
          | None => Throw URIError
          end
        else decode_from (DNeedPct (PCont (k - 1) n acc')) r
      else Throw URIError
  end.

Lemma utf16_ind (P : jsstring -> Prop) :
  P [] -> (forall c r, P r -> P (c :: r)) -> (forall c c2 r, P r -> P (c :: c2 :: r)) ->
  forall s, P s.
Proof.
  intros H0 H1 H2 s.
  enough (H : P s /\ forall c, P (c :: s)) by exact (proj1 H).
  induction s as [|c s [IH1 IH2]]; split; auto.
Qed.

Lemma pct1_escape (p : pending) (b : N) (r : jsstring) : (b < 256)%N ->
  decode_from (DPct1 p) (hex_digit (b / 16) :: hex_digit (b mod 16) :: r) = dec_byte p b r.
Proof.
  intros Hb. cbn [decode_from].
  rewrite hex_value_hex_digit by (apply N.Div0.div_lt_upper_bound; lia).
  rewrite hex_value_hex_digit by (apply N.mod_lt; lia).
  replace (b / 16 * 16 + b mod 16)%N with b
    by (rewrite N.mul_comm; rewrite <- N.Div0.div_mod; reflexivity).
  destruct p; reflexivity.
Qed.

Lemma text_escape (b : N) (r : jsstring) : (b < 256)%N ->
  decode_from DText (escape_octet b ++ r) = dec_byte PStart b r.
Proof. intros Hb. exact (pct1_escape PStart b r Hb). Qed.

Lemma need_escape (p : pending) (b : N) (r : jsstring) : (b < 256)%N ->
  decode_from (DNeedPct p) (escape_octet b ++ r) = dec_byte p b r.
Proof. intros Hb. exact (pct1_escape p b r Hb). Qed.

Lemma dec_byte_ascii (b : N) (r : jsstring) : (b < 128)%N ->
  dec_byte PStart b r = cmap (cons b) (decode_from DText r).
Proof. intros Hb. unfold dec_byte. now replace (b <? 128)%N with true by (symmetry; apply N.ltb_lt; lia). Qed.

Lemma lead_facts (n base q : N) (k : nat) :
  forallb (fun q => negb (base + q <? 128)%N
                    && match utf8_length (base + q) with Some m => (m =? n)%N | None => false end
                    && (utf8_lead_bits (base + q) n =? q)%N) (N_range k) = true ->
  (q < N.of_nat k)%N ->
  dec_byte PStart (base + q) = decode_from (DNeedPct (PCont (n - 1) n q)).
Proof.
  intros H Hq. pose proof (forallb_N_range _ k H q Hq) as E. cbv beta in E.
  apply andb_prop in E as [E E3]. apply andb_prop in E as [E1 E2].
  apply negb_true_iff in E1. apply N.eqb_eq in E3.
  unfold dec_byte. rewrite E1.
  destruct (utf8_length (base + q)) as [m|]; [|discriminate E2].
  apply N.eqb_eq in E2. subst m. now rewrite E3.
Qed.

Lemma cont_facts (x : N) : (x < 64)%N ->
  N.land (128 + x) 192 = 128%N /\ ((128 + x) mod 64 = x)%N.
Proof.
  intros Hx.
  pose proof (forallb_N_range (fun x => (N.land (128 + x) 192 =? 128)%N && ((128 + x) mod 64 =? x)%N)
    64 ltac:(vm_compute; reflexivity) x Hx) as E.
  cbv beta in E. apply andb_prop in E as [E1 E2]. split; now apply N.eqb_eq.
Qed.

Lemma dec_byte_last (n acc x : N) (r : jsstring) : (x < 64)%N ->
  dec_byte (PCont 1 n acc) (128 + x) r =
    match utf8_finish n (acc * 64 + x) with
    | Some units => cmap (app units) (decode_from DText r)
    | None => Throw URIError
    end.
Proof.
  intros Hx. destruct (cont_facts x Hx) as [E1 E2].
  unfold dec_byte. rewrite E1, E2. reflexivity.
Qed.

Lemma dec_byte_next (k n acc x : N) (r : jsstring) : (x < 64)%N -> (k =? 1)%N = false ->
  dec_byte (PCont k n acc) (128 + x) r = decode_from (DNeedPct (PCont (k - 1) n (acc * 64 + x))) r.
Proof.
  intros Hx Hk. destruct (cont_facts x Hx) as [E1 E2].
  unfold dec_byte. rewrite E1, E2, Hk. reflexivity.
Qed.

Lemma cmap_app {A} (u v : list A) (m : completion (list A)) :
  cmap (app u) (cmap (app v) m) = cmap (app (u ++ v)) m.
Proof. destruct m; simpl; [now rewrite app_assoc|reflexivity]. Qed.

Lemma split64 (a : N) : a = (a / 64 * 64 + a mod 64)%N.
Proof. rewrite N.mul_comm. apply N.Div0.div_mod. Qed.

Lemma recombine (a m : N) : (a / (m * 64) * 64 + a / m mod 64 = a / m)%N.
Proof. rewrite <- N.Div0.div_div. rewrite N.mul_comm. symmetry. apply N.Div0.div_mod. Qed.

Lemma finish2 (cp : N) : (128 <= cp < 2048)%N -> utf8_finish 2 cp = Some [cp].
Proof.
  intros H. unfold utf8_finish. cbn [N.eqb Pos.eqb].
  replace (128 <=? cp)%N with true by (symmetry; apply N.leb_le; lia).
  now replace (cp <? 65536)%N with true by (symmetry; apply N.ltb_lt; lia).
Qed.

Lemma finish3 (cp : N) : (2048 <= cp < 65536)%N ->
  negb ((55296 <=? cp)%N && (cp <=? 57343)%N) = true -> utf8_finish 3 cp = Some [cp].
Proof.
  intros H Hs. unfold utf8_finish. cbn [N.eqb Pos.eqb]. rewrite Hs.
  replace (2048 <=? cp)%N with true by (symmetry; apply N.leb_le; lia).
  now replace (cp <? 65536)%N with true by (symmetry; apply N.ltb_lt; lia).
Qed.

Lemma finish4 (cp : N) : (65536 <= cp < 1114112)%N -> utf8_finish 4 cp = Some (utf16_units cp).
Proof.
  intros H. unfold utf8_finish, utf16_units. cbn [N.eqb Pos.eqb].
  replace (65536 <=? cp)%N with true by (symmetry; apply N.leb_le; lia).
  replace (cp <=? 1114111)%N with true by (symmetry; apply N.leb_le; lia).
  now replace (cp <? 65536)%N with false by (symmetry; apply N.ltb_ge; lia).
Qed.

Lemma mod64 (a : N) : (a mod 64 < 64)%N.
Proof. apply N.mod_lt; lia. Qed.

Ltac lead_bound := match goal with |- (?a / ?m < ?k)%N => apply N.Div0.div_lt_upper_bound; lia end.

(** Decoding the escapes of one code point. *)
Lemma decode_escape_cp (cp : N) (r : jsstring) :
  (128 <= cp < 1114112)%N -> negb ((55296 <=? cp)%N && (cp <=? 57343)%N) = true ->
  decode_from DText (escape_cp cp ++ r) = cmap (app (utf16_units cp)) (decode_from DText r).
Proof.
  intros [Hlo Hhi] Hns. unfold escape_cp, utf8_octets.
  replace (cp <? 128)%N with false by (symmetry; apply N.ltb_ge; lia).
  pose proof (mod64 cp) as M0. pose proof (mod64 (cp / 64)) as M1.
  pose proof (mod64 (cp / 4096)) as M2.
  destruct (N.ltb_spec cp 2048) as [H2|H2]; [|destruct (N.ltb_spec cp 65536) as [H3|H3]];
    cbn [flat_map]; rewrite app_nil_r, <- !app_assoc.
  - assert (Q : (cp / 64 < 32)%N) by lead_bound.
    rewrite text_escape by lia.
    rewrite (lead_facts 2 192 (cp / 64) 32 ltac:(vm_compute; reflexivity) ltac:(lia)).
    change (2 - 1)%N with 1%N.
    rewrite need_escape, dec_byte_last by lia.
    rewrite <- split64, finish2 by lia.
    unfold utf16_units. now replace (cp <? 65536)%N with true by (symmetry; apply N.ltb_lt; lia).
  - assert (Q : (cp / 4096 < 16)%N) by lead_bound.
    rewrite text_escape by lia.
    rewrite (lead_facts 3 224 (cp / 4096) 16 ltac:(vm_compute; reflexivity) ltac:(lia)).
    change (3 - 1)%N with 2%N.
    rewrite need_escape, dec_byte_next by (reflexivity || lia).
    change (2 - 1)%N with 1%N.
    rewrite need_escape, dec_byte_last by lia.
    change 4096%N with (64 * 64)%N. rewrite recombine, <- split64, finish3 by (assumption || lia).
    unfold utf16_units. now replace (cp <? 65536)%N with true by (symmetry; apply N.ltb_lt; lia).
  - assert (Q : (cp / 262144 < 8)%N) by lead_bound.
    rewrite text_escape by lia.
    rewrite (lead_facts 4 240 (cp / 262144) 8 ltac:(vm_compute; reflexivity) ltac:(lia)).
    change (4 - 1)%N with 3%N.
    rewrite need_escape, dec_byte_next by (reflexivity || lia).
    change (3 - 1)%N with 2%N.
    rewrite need_escape, dec_byte_next by (reflexivity || lia).
    change (2 - 1)%N with 1%N.
    rewrite need_escape, dec_byte_last by lia.
    change 262144%N with (4096 * 64)%N. rewrite recombine.
    change 4096%N with (64 * 64)%N. rewrite recombine, <- split64, finish4 by lia.
    reflexivity.
Qed.

Lemma utf16_ind' (P : jsstring -> Prop) :
  P [] -> (forall c, P [] -> P [c]) ->
  (forall c c2 r, P r -> P (c2 :: r) -> P (c :: c2 :: r)) -> forall s, P s.
Proof.
  intros H0 H1 H2 s.
  enough (H : P s /\ forall c, P (c :: s)) by exact (proj1 H).
  induction s as [|c s [IH1 IH2]]; split; auto.
Qed.

Lemma unreserved_ascii (c : N) : uri_unreserved c = true -> (c < 128)%N.
Proof.
  unfold uri_unreserved, is_upper, is_lower, is_digit. simpl existsb.
  rewrite !orb_true_iff, !andb_true_iff, !N.leb_le, !N.eqb_eq. intros H.
  repeat match type of H with _ \/ _ => destruct H as [H|H] end;
    try (destruct H; lia); try lia; try discriminate H.
Qed.

Lemma unreserved_not_surrogate (c : N) :
  uri_unreserved c = true -> is_low_surrogate c = false /\ is_high_surrogate c = false.
Proof.
  intros H. apply unreserved_ascii in H.
  unfold is_low_surrogate, is_high_surrogate. split; apply andb_false_iff; left; apply N.leb_gt; lia.
Qed.

Lemma cmap_throw {A B} (f : A -> B) (m : completion A) (e : js_error) :
  cmap f m = Throw e <-> m = Throw e.
Proof. destruct m; simpl; split; congruence. Qed.

Lemma encode_throw_iff (s : jsstring) :
  encodeURIComponent s = Throw URIError <-> wf_utf16 s = false.
Proof.
  induction s as [|c IH|c c2 r IH1 IH2] using utf16_ind'.
  - simpl. split; discriminate.
  - cbn [encodeURIComponent wf_utf16].
    destruct (uri_unreserved c) eqn:U.
    + destruct (unreserved_not_surrogate c U) as [-> ->]. rewrite cmap_throw. exact IH.
    + destruct (is_low_surrogate c); [tauto|].
      destruct (is_high_surrogate c); [tauto|]. rewrite cmap_throw. exact IH.
  - cbn [encodeURIComponent wf_utf16] in *.
    destruct (uri_unreserved c) eqn:U.
    + destruct (unreserved_not_surrogate c U) as [-> ->]. rewrite cmap_throw. exact IH2.
    + destruct (is_low_surrogate c); [tauto|].
      destruct (is_high_surrogate c).
      * destruct (is_low_surrogate c2); [rewrite cmap_throw; exact IH1|tauto].
      * rewrite cmap_throw. exact IH2.
Qed.

(** The output of [encodeURIComponent] for a code unit outside the
    surrogate range. *)
Definition enc_unit (c : N) : jsstring := if uri_unreserved c then [c] else escape_cp c.

Lemma encode_plain (c : N) (t : jsstring) :
  is_low_surrogate c = false -> is_high_surrogate c = false ->
  encodeURIComponent (c :: t) = cmap (app (enc_unit c)) (encodeURIComponent t).
Proof.
  intros Hl Hh. cbn [encodeURIComponent]. unfold enc_unit.
  destruct (uri_unreserved c); [reflexivity|]. now rewrite Hl, Hh.
Qed.

Lemma not_surrogate (c : N) :
  is_low_surrogate c = false -> is_high_surrogate c = false ->
  negb ((55296 <=? c)%N && (c <=? 57343)%N) = true.
Proof.
  unfold is_low_surrogate, is_high_surrogate. intros Hl Hh.
  destruct (N.leb_spec 55296 c), (N.leb_spec c 57343), (N.leb_spec 56320 c), (N.leb_spec c 56319);
    simpl in *; try reflexivity; try discriminate; lia.
Qed.

Lemma decode_unit (c : N) (x : jsstring) :
  (c < 65536)%N -> is_low_surrogate c = false -> is_high_surrogate c = false ->
  decode_from DText (enc_unit c ++ x) = cmap (cons c) (decode_from DText x).
Proof.
  intros Hc Hl Hh. unfold enc_unit. destruct (uri_unreserved c) eqn:U.
  - simpl. destruct (N.eqb_spec c 37) as [->|_]; [discriminate U|reflexivity].
  - destruct (N.ltb_spec c 128) as [Ha|Ha].
    + unfold escape_cp, utf8_octets.
      replace (c <? 128)%N with true by (symmetry; now apply N.ltb_lt).
      cbn [flat_map]. rewrite app_nil_r, text_escape, dec_byte_ascii by lia. reflexivity.
    + rewrite decode_escape_cp by (lia || now apply not_surrogate).
      unfold utf16_units. now replace (c <? 65536)%N with true by (symmetry; now apply N.ltb_lt).
Qed.

Definition pair_cp (c c2 : N) : N := ((c - 55296) * 1024 + (c2 - 56320) + 65536)%N.

Lemma pair_units (c c2 : N) :
  is_high_surrogate c = true -> is_low_surrogate c2 = true ->
  (65536 <= pair_cp c c2 < 1114112)%N /\ utf16_units (pair_cp c c2) = [c; c2].
Proof.
  unfold is_high_surrogate, is_low_surrogate.
  rewrite !andb_true_iff, !N.leb_le. intros [H1 H2] [H3 H4].
  split; [unfold pair_cp; lia|].
  unfold utf16_units, pair_cp.
  replace ((c - 55296) * 1024 + (c2 - 56320) + 65536 <? 65536)%N with false
    by (symmetry; apply N.ltb_ge; lia).
  replace ((c - 55296) * 1024 + (c2 - 56320) + 65536 - 65536)%N
    with ((c - 55296) * 1024 + (c2 - 56320))%N by lia.
  rewrite N.div_add_l, (N.div_small (c2 - 56320)) by lia.
  rewrite (N.add_comm ((c - 55296) * 1024)), N.Div0.mod_add, N.mod_small by lia.
  f_equal; [lia|f_equal; lia].
Qed.

Lemma utf8_octets_lt (cp : N) : (cp < 1114112)%N -> forallb (fun b => b <? 256)%N (utf8_octets cp) = true.
Proof.
  intros H. unfold utf8_octets.
  assert (M : forall a, (a mod 64 < 64)%N) by (intros; apply N.mod_lt; lia).
  destruct (N.ltb_spec cp 128); [simpl; rewrite andb_true_r; apply N.ltb_lt; lia|].
  destruct (N.ltb_spec cp 2048).
  { assert (cp / 64 < 32)%N by (apply N.Div0.div_lt_upper_bound; lia).
    cbn [forallb]. rewrite !andb_true_r, !andb_true_iff, !N.ltb_lt. repeat split; specialize (M cp); lia. }
  destruct (N.ltb_spec cp 65536).
  { assert (cp / 4096 < 16)%N by (apply N.Div0.div_lt_upper_bound; lia).
    cbn [forallb]. rewrite !andb_true_r, !andb_true_iff, !N.ltb_lt. repeat split; pose proof (M cp); pose proof (M (cp / 64)%N); lia. }
  assert (cp / 262144 < 5)%N by (apply N.Div0.div_lt_upper_bound; lia).
  cbn [forallb]. rewrite !andb_true_r, !andb_true_iff, !N.ltb_lt. repeat split;
  pose proof (M cp); pose proof (M (cp / 64)%N); pose proof (M (cp / 4096)%N); lia.
Qed.

Definition nonspace (u : N) : bool := negb (is_js_space u).

Lemma escape_cp_nonspace (cp : N) : (cp < 1114112)%N -> forallb nonspace (escape_cp cp) = true.
Proof.
  intros H. pose proof (utf8_octets_lt cp H) as L. unfold escape_cp.
  induction (utf8_octets cp) as [|b bs IH]; [reflexivity|].
  cbn [flat_map forallb] in L |- *. apply andb_prop in L as [Lb Ls]. apply N.ltb_lt in Lb.
  rewrite forallb_app, IH by exact Ls. rewrite andb_true_r.
  exact (forallb_N_range (fun b => forallb nonspace (escape_octet b)) 256
           ltac:(vm_compute; reflexivity) b Lb).
Qed.

Lemma escape_cp_nonnil (cp : N) : escape_cp cp <> [].
Proof.
  unfold escape_cp, utf8_octets.
  destruct (cp <? 128)%N; [|destruct (cp <? 2048)%N; [|destruct (cp <? 65536)%N]]; discriminate.
Qed.

Lemma enc_unit_nonspace (c : N) : (c < 65536)%N -> forallb nonspace (enc_unit c) = true.
Proof.
  intros Hc. unfold enc_unit. destruct (uri_unreserved c) eqn:U.
  - pose proof (unreserved_ascii c U) as Ha. simpl. rewrite andb_true_r.
    pose proof (forallb_N_range (fun c => negb (uri_unreserved c) || nonspace c) 128
      ltac:(vm_compute; reflexivity) c Ha) as E. cbv beta in E. now rewrite U in E.
  - apply escape_cp_nonspace. lia.
Qed.

Lemma enc_unit_nonnil (c : N) : enc_unit c <> [].
Proof. unfold enc_unit. destruct (uri_unreserved c); [discriminate|apply escape_cp_nonnil]. Qed.

Lemma cmap_app_cons {A} (a : A) (u : list A) (m : completion (list A)) :
  cmap (cons a) (cmap (app u) m) = cmap (app (a :: u)) m.
Proof. destruct m; reflexivity. Qed.

(** Every element is a UTF-16 code unit. *)
Definition code_units_ok (s : jsstring) : bool := forallb (fun c => c <? 65536)%N s.

Lemma encode_utf16 (s : jsstring) :
  code_units_ok s = true -> wf_utf16 s = true ->
  exists e, encodeURIComponent s = Normal e
    /\ (forall x, decode_from DText (e ++ x) = cmap (app s) (decode_from DText x))
    /\ forallb nonspace e = true /\ (s <> [] -> e <> []).
Proof.
  unfold code_units_ok.
  assert (Plain : forall c t, (c < 65536)%N -> is_low_surrogate c = false -> is_high_surrogate c = false ->
            (exists e, encodeURIComponent t = Normal e
              /\ (forall x, decode_from DText (e ++ x) = cmap (app t) (decode_from DText x))
              /\ forallb nonspace e = true /\ (t <> [] -> e <> [])) ->
            exists e, encodeURIComponent (c :: t) = Normal e
              /\ (forall x, decode_from DText (e ++ x) = cmap (app (c :: t)) (decode_from DText x))
              /\ forallb nonspace e = true /\ (c :: t <> [] -> e <> [])).
  { intros c t Hc Hl Hh (e & E1 & E2 & E3 & _).
    exists (enc_unit c ++ e). rewrite encode_plain, E1 by assumption.
    split; [reflexivity|]. split; [|split].
    - intros x. rewrite <- app_assoc, decode_unit, E2 by assumption. apply cmap_app_cons.
    - rewrite forallb_app, enc_unit_nonspace, E3 by assumption. reflexivity.
    - intros _ He. apply app_eq_nil in He as [He _]. exact (enc_unit_nonnil c He). }
  induction s as [|c IH|c c2 r IH1 IH2] using utf16_ind'; intros Hu Hw.
  - exists []. repeat split; [intros x; cbn [app]; destruct (decode_from DText x); reflexivity|].
    intros H. now contradiction H.
  - simpl in Hu, Hw. rewrite andb_true_r in Hu. apply N.ltb_lt in Hu.
    destruct (is_low_surrogate c) eqn:Hl; [discriminate Hw|].
    destruct (is_high_surrogate c) eqn:Hh; [discriminate Hw|].
    apply Plain; auto.
  - cbn [forallb] in Hu. apply andb_prop in Hu as [Hc Hu']. apply N.ltb_lt in Hc.
    cbn [wf_utf16] in Hw.
    destruct (is_low_surrogate c) eqn:Hl; [discriminate Hw|].
    destruct (is_high_surrogate c) eqn:Hh.
    + destruct (is_low_surrogate c2) eqn:Hl2; [|discriminate Hw]. simpl in Hw.
      cbn [forallb] in Hu'. apply andb_prop in Hu' as [_ Hr].
      destruct (IH1 Hr Hw) as (e & E1 & E2 & E3 & _).
      destruct (pair_units c c2 Hh Hl2) as [Hcp Hpair].
      exists (escape_cp (pair_cp c c2) ++ e).
      assert (U : uri_unreserved c = false).
      { destruct (uri_unreserved c) eqn:U; [|reflexivity].
        destruct (unreserved_not_surrogate c U) as [_ H]. congruence. }
      cbn [encodeURIComponent]. rewrite U, Hl, Hh, Hl2, E1. fold (pair_cp c c2).
      split; [reflexivity|]. split; [|split].
      * intros x. rewrite <- app_assoc, decode_escape_cp, Hpair, E2.
        -- destruct (decode_from DText x); reflexivity.
        -- lia.
        -- apply negb_true_iff, andb_false_iff. right. apply N.leb_gt. lia.
      * rewrite forallb_app, escape_cp_nonspace, E3 by lia. reflexivity.
      * intros _ He. apply app_eq_nil in He as [He _]. exact (escape_cp_nonnil _ He).
    + apply Plain; auto.

Qed.

(** X6: on well-formed UTF-16 text, [decodeURIComponent] undoes
    [encodeURIComponent]. *)
Theorem codec_round_trip (s : jsstring) :
  code_units_ok s = true -> wf_utf16 s = true ->
  cbind (encodeURIComponent s) decodeURIComponent = Normal s.
Proof.
  intros Hu Hw. destruct (encode_utf16 s Hu Hw) as (e & E1 & E2 & _).
  rewrite E1. cbn [cbind]. unfold decodeURIComponent.
  rewrite <- (app_nil_r e), E2. simpl. now rewrite app_nil_r.
Qed.

Lemma codec_round_trip_witness :
  cbind (encodeURIComponent [55357; 56832; 32; 37; 233; 2047; 65535]%N) decodeURIComponent
  = Normal [55357; 56832; 32; 37; 233; 2047; 65535]%N.
Proof. apply codec_round_trip; vm_compute; reflexivity. Defined.

(** X7: [buildChillerQrValue] throws [URIError] exactly when the
    identifier contains an unpaired surrogate; otherwise it returns a value. *)
Theorem buildChillerQrValue_throws_iff (chillerId : jsstring) :
  buildChillerQrValue chillerId = Throw URIError <-> wf_utf16 chillerId = false.
Proof.
  unfold buildChillerQrValue. rewrite <- encode_throw_iff.
  destruct (encodeURIComponent chillerId) as [a|[]]; cbn [cbind]; split; intros H; try reflexivity; discriminate H.
Qed.

(** X8: every non-empty identifier of well-formed UTF-16 without
    surrounding white space survives building the QR value and parsing it
    back. *)
Theorem qr_round_trip_utf16 (x : jsstring) :
  x <> [] -> trim x = x -> code_units_ok x = true -> wf_utf16 x = true ->
  cbind (buildChillerQrValue x) parseChillerIdFromQr = Normal (Some x).
Proof.
  intros Hne Htrim Hu Hw. destruct (encode_utf16 x Hu Hw) as (e & E1 & E2 & E3 & E4).
  unfold buildChillerQrValue. rewrite E1. cbn [cbind].
  unfold parseChillerIdFromQr.
  rewrite trim_prefix_encoded by (exact E3 || exact (E4 Hne)).
  rewrite starts_with_app, skipn_length_app. unfold decodeURIComponent.
  rewrite <- (app_nil_r e), E2. simpl. rewrite app_nil_r, Htrim.
  destruct x; [congruence|reflexivity].
Qed.

Lemma qr_round_trip_utf16_witness :
  cbind (buildChillerQrValue [233; 32; 28201; 24230; 32; 55357; 56832]%N) parseChillerIdFromQr
  = Normal (Some [233; 32; 28201; 24230; 32; 55357; 56832]%N).
Proof.
  apply qr_round_trip_utf16; [discriminate | vm_compute; reflexivity ..].
Defined.

(** ** What the QR parser returns *)

Lemma trim_start_split (s : jsstring) :
  exists sp, s = sp ++ trim_start s /\ forallb is_js_space sp = true.
Proof.
  induction s as [|c s [sp [E H]]]; [now exists []|]. simpl.
  destruct (is_js_space c) eqn:Hc.
  - exists (c :: sp). simpl. rewrite Hc, H. split; [now rewrite <- E|reflexivity].
  - now exists [].
Qed.

Definition no_lead_space (s : jsstring) : bool :=
  match s with [] => true | c :: _ => negb (is_js_space c) end.

Lemma trim_start_no_lead (s : jsstring) : no_lead_space (trim_start s) = true.
Proof.
  induction s as [|c s IH]; [reflexivity|]. simpl.
  destruct (is_js_space c) eqn:Hc; [exact IH|]. simpl. now rewrite Hc.
Qed.

Lemma trim_start_fixed (s : jsstring) : no_lead_space s = true -> trim_start s = s.
Proof.
  destruct s as [|c s]; [reflexivity|]. simpl. intros H.
  apply negb_true_iff in H. now rewrite H.
Qed.

Lemma trim_end_no_lead (s : jsstring) : no_lead_space s = true -> no_lead_space (trim_end s) = true.
Proof.
  intros H. unfold trim_end.
  destruct (trim_start_split (rev s)) as [sp [E _]].
  apply (f_equal (@rev N)) in E. rewrite rev_involutive, rev_app_distr in E.
  destruct (rev (trim_start (rev s))) as [|c w] eqn:W; [reflexivity|].
  rewrite E in H. exact H.
Qed.

Lemma trim_idempotent (s : jsstring) : trim (trim s) = trim s.
Proof.
  unfold trim at 1. rewrite trim_start_fixed.
  - unfold trim, trim_end. rewrite rev_involutive.
    rewrite (trim_start_fixed (trim_start (rev (trim_start s)))); [reflexivity|].
    apply trim_start_no_lead.
  - apply trim_end_no_lead, trim_start_no_lead.
Qed.

(** X9: an identifier returned by [parseChillerIdFromQr] is never empty and
    has no surrounding white space. *)
Theorem parseChillerIdFromQr_trimmed (value id : jsstring) :
  parseChillerIdFromQr value = Normal (Some id) -> id <> [] /\ trim id = id.
Proof.
  unfold parseChillerIdFromQr.
  destruct (starts_with QR_PREFIX (trim value)).
  - destruct (decodeURIComponent _) as [d|e]; cbn [cbind]; [|discriminate].
    unfold or_null. destruct (trim d) as [|c t] eqn:Ht; [discriminate|].
    intros H. injection H as <-. split; [discriminate|]. rewrite <- Ht. apply trim_idempotent.
  - destruct (raw_id_test (trim value)) eqn:R; [|discriminate].
    intros H. injection H as <-. split.
    + intros E. rewrite E in R. discriminate R.
    + apply trim_idempotent.
Qed.

Lemma parseChillerIdFromQr_trimmed_witness :
  js "ab" <> [] /\ trim (js "ab") = js "ab".
Proof.
  apply (parseChillerIdFromQr_trimmed (js " temp-monitor://chiller/%20ab%09 ")).
  vm_compute. reflexivity.
Defined.

(** ** The unencoded QR value of the QR detail screen *)

Lemma decode_no_pct (s : jsstring) : ~ In 37%N s -> decode_from DText s = Normal s.
Proof.
  induction s as [|c s IH]; intros H; [reflexivity|]. simpl.
  destruct (N.eqb_spec c 37) as [->|_]; [exfalso; apply H; now left|].
  rewrite IH; [reflexivity|]. intros Hin. apply H. now right.
Qed.

Lemma trim_start_app (a b : jsstring) :
  trim_start (a ++ b) = match trim_start a with [] => trim_start b | t => t ++ b end.
Proof.
  induction a as [|c a IH]; [reflexivity|]. simpl.
  destruct (is_js_space c); [exact IH|reflexivity].
Qed.

Lemma trim_no_lead (s : jsstring) : no_lead_space (trim s) = true.
Proof. apply trim_end_no_lead, trim_start_no_lead. Qed.

Lemma trim_fixed_parts (x : jsstring) :
  trim x = x -> trim_start x = x /\ trim_start (rev x) = rev x.
Proof.
  intros H. assert (Hs : trim_start x = x) by (apply trim_start_fixed; rewrite <- H; apply trim_no_lead).
  split; [exact Hs|].
  unfold trim, trim_end in H. rewrite Hs in H.
  apply (f_equal (@rev N)) in H. now rewrite rev_involutive in H.
Qed.

Lemma trim_prefix_app (p x : jsstring) :
  p <> [] -> no_lead_space p = true -> x <> [] -> trim x = x -> trim (p ++ x) = p ++ x.
Proof.
  intros Hp Hpl Hx Ht. destruct (trim_fixed_parts x Ht) as [_ Hr].
  unfold trim, trim_end.
  rewrite (trim_start_fixed (p ++ x)) by (destruct p; [congruence|exact Hpl]).
  rewrite rev_app_distr, trim_start_app, Hr.
  destruct (rev x) as [|c r] eqn:E.
  - apply (f_equal (@rev N)) in E. rewrite rev_involutive in E. simpl in E. congruence.
  - rewrite <- E, <- rev_app_distr. apply rev_involutive.
Qed.

(** X10: the QR detail screen's unencoded value is read back by the
    scanner as the identifier, when the identifier is non-empty, has no
    surrounding white space and contains no ['%']. *)
Theorem qr_page_value_round_trip (chillerId : jsstring) :
  chillerId <> [] -> trim chillerId = chillerId -> ~ In 37%N chillerId ->
  parseChillerIdFromQr (qr_page_value chillerId) = Normal (Some chillerId).
Proof.
  intros Hne Ht Hp. unfold parseChillerIdFromQr, qr_page_value.
  rewrite trim_prefix_app by (discriminate || reflexivity || assumption).
  rewrite starts_with_app, skipn_length_app. unfold decodeURIComponent.
  rewrite decode_no_pct by exact Hp. cbn [cbind]. rewrite Ht.
  destruct chillerId; [congruence|reflexivity].
Qed.

Lemma qr_page_value_round_trip_witness :
  parseChillerIdFromQr (qr_page_value (js "cold room #2")) = Normal (Some (js "cold room #2")).
Proof.
  apply qr_page_value_round_trip; [discriminate|vm_compute; reflexivity|].
  vm_compute. intros H. repeat destruct H as [H|H]; try discriminate H. exact H.
Defined.

(** ** File names for exported QR images *)

(** No two adjacent ["_"]. *)
Fixpoint no_double_underscore (s : jsstring) : bool :=
  match s with
  | c :: ((d :: _) as r) => negb ((c =? 95)%N && (d =? 95)%N) && no_double_underscore r
  | _ => true
  end.

Lemma replace_runs_class (b : bool) (s : jsstring) : forallb raw_id_char (replace_runs b s) = true.
Proof.
  revert b. induction s as [|c s IH]; intros b; [reflexivity|]. simpl.
  destruct (raw_id_char c) eqn:Hc; [simpl; now rewrite Hc, IH|].
  destruct b; [apply IH|]. simpl. now rewrite IH.
Qed.

Lemma squeeze_forallb (P : N -> bool) (b : bool) (s : jsstring) :
  forallb P s = true -> forallb P (squeeze_underscores b s) = true.
Proof.
  revert b. induction s as [|c s IH]; intros b H; [reflexivity|].
  simpl in H. apply andb_prop in H as [Hc Hs]. simpl.
  destruct (c =? 95)%N; [destruct b|]; cbn [forallb]; rewrite ?Hc; cbn [andb]; auto.
Qed.

Lemma forallb_firstn {A} (P : A -> bool) (n : nat) (s : list A) :
  forallb P s = true -> forallb P (firstn n s) = true.
Proof.
  revert s. induction n as [|n IH]; intros [|a s] H; try reflexivity.
  simpl in H |- *. apply andb_prop in H as [Ha Hs]. now rewrite Ha, IH.
Qed.

Lemma squeeze_no_double (b : bool) (s : jsstring) :
  no_double_underscore (squeeze_underscores b s) = true
  /\ (b = true -> match squeeze_underscores b s with c :: _ => (c =? 95)%N = false | [] => True end).
Proof.
  revert b. induction s as [|c s IH]; intros b; [split; [reflexivity|intros; exact I]|]. simpl.
  destruct (N.eqb_spec c 95) as [->|Hc].
  - destruct b.
    + exact (IH true).
    + split; [|discriminate]. destruct (IH true) as [H1 H2]. specialize (H2 eq_refl).
      destruct (squeeze_underscores true s) as [|d r]; [reflexivity|].
      change (negb ((95 =? 95)%N && (d =? 95)%N) && no_double_underscore (d :: r) = true).
      now rewrite H2, H1.
    - split; [|intros _; now apply N.eqb_neq].
      destruct (IH false) as [H1 _].
      destruct (squeeze_underscores false s) as [|d r]; [reflexivity|].
      change (negb ((c =? 95)%N && (d =? 95)%N) && no_double_underscore (d :: r) = true).
      apply N.eqb_neq in Hc. now rewrite Hc, H1.
Qed.

Lemma no_double_firstn (n : nat) (s : jsstring) :
  no_double_underscore s = true -> no_double_underscore (firstn n s) = true.
Proof.
  revert s. induction n as [|n IH]; intros [|c s] H; try reflexivity.
  destruct n as [|n]; [reflexivity|].
  destruct s as [|d s]; [reflexivity|].
  change (negb ((c =? 95)%N && (d =? 95)%N) && no_double_underscore (d :: s) = true) in H.
  apply andb_prop in H as [Hcd Hs].
  change (negb ((c =? 95)%N && (d =? 95)%N) && no_double_underscore (firstn (S n) (d :: s)) = true).
  rewrite Hcd. exact (IH (d :: s) Hs).
Qed.

(** X11: [safeNameForFile] returns only the code units [[A-Za-z0-9_-]], at
    most 48 of them, and never two adjacent underscores. *)
Lemma safeNameForFile_shape (name : jsstring) :
  forallb raw_id_char (safeNameForFile name) = true
  /\ (List.length (safeNameForFile name) <= 48)%nat
  /\ no_double_underscore (safeNameForFile name) = true.
Proof.
  unfold safeNameForFile. split; [|split].
  - apply forallb_firstn, squeeze_forallb, replace_runs_class.
  - apply firstn_le_length.
  - apply no_double_firstn, squeeze_no_double.
Qed.

Theorem safeNameForFile_safe (name : jsstring) :
  let f := safeNameForFile name in
  forallb raw_id_char f = true /\ (List.length f <= 48)%nat /\ no_double_underscore f = true.
Proof. exact (safeNameForFile_shape name). Qed.

Lemma trim_start_nil_iff (s : jsstring) : trim_start s = [] <-> forallb is_js_space s = true.
Proof.
  induction s as [|c s IH]; [split; reflexivity|]. simpl.
  destruct (is_js_space c); simpl; [exact IH|split; discriminate].
Qed.

Lemma trim_nil_iff (s : jsstring) : trim s = [] <-> forallb is_js_space s = true.
Proof.
  rewrite <- trim_start_nil_iff. unfold trim, trim_end.
  pose proof (trim_start_no_lead s) as L.
  destruct (trim_start s) as [|c t]; [simpl; split; reflexivity|].
  split; [|discriminate]. intros H.
  apply (f_equal (@rev N)) in H. rewrite rev_involutive in H.
  apply trim_start_nil_iff in H. rewrite forallb_rev in H.
  simpl in H, L. apply negb_true_iff in L. rewrite L in H. discriminate H.
Qed.

Lemma raw_id_char_nonspace (c : N) : raw_id_char c = true -> is_js_space c = false.
Proof.
  intros H.
  assert (Ha : (c < 128)%N).
  { unfold raw_id_char, is_lower, is_upper, is_digit in H.
    rewrite !orb_true_iff, !andb_true_iff, !N.leb_le, !N.eqb_eq in H. lia. }
  pose proof (forallb_N_range (fun c => negb (raw_id_char c) || negb (is_js_space c)) 128
    ltac:(vm_compute; reflexivity) c Ha) as E. cbv beta in E. rewrite H in E.
  now apply negb_true_iff in E.
Qed.

Lemma trim_class (s : jsstring) : forallb raw_id_char s = true -> trim s = s.
Proof.
  intros H.
  assert (G : forall t, forallb raw_id_char t = true -> trim_start t = t).
  { intros [|c t] Ht; [reflexivity|]. simpl in Ht |- *. apply andb_prop in Ht as [Hc _].
    now rewrite raw_id_char_nonspace. }
  unfold trim, trim_end. rewrite (G s H), G by now rewrite forallb_rev.
  apply rev_involutive.
Qed.

Lemma replace_runs_class_id (s : jsstring) : forallb raw_id_char s = true -> replace_runs false s = s.
Proof.
  induction s as [|c s IH]; [reflexivity|]. simpl. intros H.
  apply andb_prop in H as [Hc Hs]. now rewrite Hc, IH.
Qed.

Lemma squeeze_id (b : bool) (s : jsstring) :
  no_double_underscore s = true ->
  (b = true -> match s with c :: _ => (c =? 95)%N = false | [] => True end) ->
  squeeze_underscores b s = s.
Proof.
  revert b. induction s as [|c s IH]; intros b H Hb; [reflexivity|]. simpl.
  assert (Hs : no_double_underscore s = true)
    by (destruct s as [|d s]; [reflexivity|]; apply andb_prop in H as [_ H]; exact H).
  destruct (N.eqb_spec c 95) as [->|Hc].
  - destruct b; [specialize (Hb eq_refl); discriminate Hb|].
    rewrite IH by (exact Hs || (intros _; destruct s as [|d s]; [exact I|];
      apply andb_prop in H as [H _]; destruct (d =? 95)%N; [discriminate H|reflexivity])).
    reflexivity.
  - now rewrite IH.
Qed.

(** X12: [safeNameForFile] returns the empty string exactly when the name is
    non-empty and consists of white space only (the empty name becomes
    ["chiller"]). *)
Theorem safeNameForFile_empty_iff (name : jsstring) :
  safeNameForFile name = [] <-> name <> [] /\ forallb is_js_space name = true.
Proof.
  unfold safeNameForFile. split.
  - destruct name as [|c0 s0]; [vm_compute; discriminate|]. intros H. split; [discriminate|].
    apply trim_nil_iff.
    destruct (trim (c0 :: s0)) as [|c t]; [reflexivity|]. exfalso. revert H. cbn [replace_runs].
    destruct (raw_id_char c); [|cbn [squeeze_underscores]; destruct (95 =? 95)%N];
      cbn [squeeze_underscores]; destruct (c =? 95)%N; discriminate.
  - intros [Hne Hs]. destruct name as [|c s]; [congruence|].
    apply trim_nil_iff in Hs. now rewrite Hs.
Qed.

(** X13: applied to its own non-empty result, [safeNameForFile] changes
    nothing. *)
Theorem safeNameForFile_idempotent (name : jsstring) :
  safeNameForFile name <> [] -> safeNameForFile (safeNameForFile name) = safeNameForFile name.
Proof.
  intros Hne. destruct (safeNameForFile_shape name) as (H1 & H2 & H3).
  set (f := safeNameForFile name) in *. unfold safeNameForFile at 1.
  destruct f as [|c t] eqn:Ef; [congruence|]. rewrite <- Ef in *.
  rewrite trim_class, replace_runs_class_id, squeeze_id by (assumption || discriminate).
  now apply firstn_all2.
Qed.

Lemma safeNameForFile_idempotent_witness :
  safeNameForFile (safeNameForFile (js "  Walk-in / Fridge #2 ")) = js "Walk-in_Fridge_2".
Proof.
  rewrite safeNameForFile_idempotent by (vm_compute; discriminate). vm_compute. reflexivity.
Defined.

(** ** Saving a reading *)

(** X14: when [onSave] passes its validation, the temperature is the parsed
    finite number, the humidity the parsed number or null for an empty field,
    the note is trimmed and non-empty for a warning or damaged status, and for
    a damaged status a local photo has been picked (whether its upload then
    succeeds is not covered). *)
Theorem onSave_submits_valid (user : bool) (chiller : option Chiller) (tempC humidity : jsstring)
    (status : Status) (note : jsstring) (photoUri : option jsstring)
    (t : Q) (h : option Q) (status' : Status) (note' : jsstring) :
  onSave user chiller tempC humidity status note photoUri = SubmitLog t h status' note' ->
  parseNumber tempC = PValue t
  /\ parseNumber humidity = match h with Some q => PValue q | None => PNull end
  /\ status' = status /\ note' = trim note
  /\ (status <> ok -> note' <> [])
  /\ (status = damaged -> photo_truthy photoUri = true).
Proof.
  unfold onSave. destruct user; [|discriminate]. destruct chiller as [ch|]; [|discriminate].
  cbn [negb]. destruct (parseNumber tempC) as [| |tv]; try discriminate.
  destruct (parseNumber humidity) as [| |hv] eqn:Hh; try discriminate;
  destruct status, (trim note) as [|c r] eqn:Hn, (photo_truthy photoUri) eqn:Hp;
  cbn; try discriminate; intros E; injection E as <- <- <- <-;
  repeat split; congruence.
Qed.

Lemma onSave_submits_valid_witness :
  parseNumber (js "9") = PValue 9
  /\ parseNumber [] = PNull
  /\ warning = warning /\ js "door open" = trim (js " door open ")
  /\ (warning <> ok -> js "door open" <> [])
  /\ (warning = damaged -> photo_truthy None = true).
Proof.
  apply (onSave_submits_valid true (Some chiller_2_8) (js "9") [] warning (js " door open ") None
    9 None warning (js "door open")).
  vm_compute. reflexivity.
Defined.

(** X15: after the auto-warning effect has flagged an out-of-range
    temperature, saving with a blank note is refused with the note alert
    (unless the humidity is not a number, which is reported first). *)
Theorem out_of_range_needs_note (ch : Chiller) (tempC humidity note : jsstring)
    (photoUri : option jsstring) (status : Status) (t : Q) :
  parseNumber tempC = PValue t -> status <> damaged -> parseNumber humidity <> PNaN ->
  trim note = [] ->
  (exists m, minTemp ch = Some m /\ js_lt (JFin t) m = true)
  \/ (exists m, maxTemp ch = Some m /\ js_lt m (JFin t) = true) ->
  onSave true (Some ch) tempC humidity (autoWarning (Some ch) tempC status) note photoUri
  = ValidationAlert (js "Note is required for Warning/Damaged.").
Proof.
  intros Hp Hs Hh Hn Hout. rewrite (autoWarning_value ch tempC t status Hp Hs).
  replace (_ || _) with true.
  - unfold onSave. cbn [negb]. rewrite Hp, Hn.
    destruct (parseNumber humidity); [reflexivity|congruence|reflexivity].
  - symmetry. apply orb_true_iff.
    destruct Hout as [[m [E L]]|[m [E L]]]; [left|right]; rewrite E; exact L.
Qed.

Lemma out_of_range_needs_note_witness :
  onSave true (Some chiller_2_8) (js "9,5") (js "40") (autoWarning (Some chiller_2_8) (js "9,5") ok)
    (js "  ") None
  = ValidationAlert (js "Note is required for Warning/Damaged.").
Proof.
  apply (out_of_range_needs_note chiller_2_8 (js "9,5") (js "40") (js "  ") None ok (19 # 2));
    [vm_compute; reflexivity | discriminate | vm_compute; discriminate | vm_compute; reflexivity |].
  right. exists (JFin 8). split; [reflexivity|vm_compute; reflexivity].
Defined.

(** ** Normalising Firebase Storage URLs *)

Lemma normalize_trim (input : jsstring) :
  normalizeFirebaseStorageUrl (trim input) = normalizeFirebaseStorageUrl input.
Proof. unfold normalizeFirebaseStorageUrl. now rewrite trim_idempotent. Qed.

Lemma until_slash_app (a p b : jsstring) :
  forallb (fun c => negb (c =? 47)%N) a = true -> starts_with [47%N] p = true ->
  until_slash (a ++ p ++ b) = (a, p ++ b).
Proof.
  induction a as [|c a IH]; intros H Hp.
  { destruct p as [|d p]; [discriminate|]. cbn [starts_with] in Hp. rewrite andb_true_r in Hp.
    apply N.eqb_eq in Hp. subst. reflexivity. }
  cbn [app until_slash forallb] in *.
  apply andb_prop in H as [Hc Ha]. apply negb_true_iff in Hc. rewrite Hc, IH by assumption.
  reflexivity.
Qed.

Lemma until_slash_spec (s a b : jsstring) :
  until_slash s = (a, b) ->
  s = a ++ b /\ forallb (fun c => negb (c =? 47)%N) a = true
  /\ match b with [] => True | c :: _ => c = 47%N end.
Proof.
  revert a b. induction s as [|c s IH]; intros a b H; simpl in H.
  - injection H as <- <-. repeat split.
  - destruct (N.eqb_spec c 47) as [->|Hc].
    + injection H as <- <-. repeat split.
    + destruct (until_slash s) as [a' b'] eqn:E. injection H as <- <-.
      destruct (IH a' b' eq_refl) as (H1 & H2 & H3).
      split; [now rewrite H1|]. split; [|exact H3].
      simpl. rewrite H2. apply N.eqb_neq in Hc. now rewrite Hc.
Qed.

Lemma starts_with_split (p s : jsstring) :
  starts_with p s = true -> s = p ++ skipn (List.length p) s.
Proof.
  revert s. induction p as [|a p IH]; intros [|b s] H; simpl in H |- *; try reflexivity; try discriminate.
  apply andb_prop in H as [Hab Hs]. apply N.eqb_eq in Hab. subst. now rewrite <- IH.
Qed.

(** A host or bucket segment of a storage URL: non-empty, without ['/']. *)
Definition url_segment (x : jsstring) : Prop :=
  x <> [] /\ forallb (fun c => negb (c =? 47)%N) x = true.

Lemma match_storage_url_build (host bucket objectPart : jsstring) :
  url_segment host -> url_segment bucket ->
  match_storage_url (js "https://" ++ host ++ js "/v0/b/" ++ bucket ++ js "/o/" ++ objectPart)
  = if js_truthy objectPart && forallb (fun c => negb (is_line_terminator c)) objectPart
    then Some (js "https://" ++ host ++ js "/v0/b/" ++ bucket ++ js "/o/", objectPart)
    else None.
Proof.
  intros (Hh & Hh') (Hb & Hb'). unfold match_storage_url.
  rewrite starts_with_app. change 8%nat with (List.length (js "https://")).
  rewrite skipn_length_app.
  rewrite until_slash_app by (exact Hh' || reflexivity).
  rewrite starts_with_app. destruct host as [|c h]; [congruence|]. cbn [js_truthy andb].
  change 6%nat with (List.length (js "/v0/b/")). rewrite skipn_length_app.
  rewrite until_slash_app by (exact Hb' || reflexivity).
  rewrite starts_with_app. destruct bucket as [|d b]; [congruence|]. cbn [js_truthy andb].
  change 3%nat with (List.length (js "/o/")). rewrite skipn_length_app. reflexivity.
Qed.

Lemma match_storage_url_spec (base prefix objectPart : jsstring) :
  match_storage_url base = Some (prefix, objectPart) ->
  exists host bucket, url_segment host /\ url_segment bucket
    /\ prefix = js "https://" ++ host ++ js "/v0/b/" ++ bucket ++ js "/o/"
    /\ base = js "https://" ++ host ++ js "/v0/b/" ++ bucket ++ js "/o/" ++ objectPart.
Proof.
  unfold match_storage_url.
  destruct (starts_with (js "https://") base) eqn:S1; [|discriminate].
  destruct (until_slash (skipn 8 base)) as [host r2] eqn:U1.
  destruct (js_truthy host && starts_with (js "/v0/b/") r2) eqn:S2; [|discriminate].
  destruct (until_slash (skipn 6 r2)) as [bucket r4] eqn:U2.
  destruct (js_truthy bucket && starts_with (js "/o/") r4) eqn:S3; [|discriminate].
  destruct (js_truthy (skipn 3 r4) && forallb _ (skipn 3 r4)) eqn:S4; [|discriminate].
  intros H. injection H as <- <-.
  apply andb_prop in S2 as [T2 S2]. apply andb_prop in S3 as [T3 S3].
  apply starts_with_split in S1, S2, S3.
  destruct (until_slash_spec _ _ _ U1) as (E1 & F1 & _).
  destruct (until_slash_spec _ _ _ U2) as (E2 & F2 & _).
  exists host, bucket. split; [|split; [|split; [reflexivity|]]].
  - split; [|exact F1]. intros E. rewrite E in T2. discriminate.
  - split; [|exact F2]. intros E. rewrite E in T3. discriminate.
  - change (List.length (js "https://")) with 8%nat in S1.
    change (List.length (js "/v0/b/")) with 6%nat in S2.
    change (List.length (js "/o/")) with 3%nat in S3.
    change (base = js "https://" ++ host ++ js "/v0/b/" ++ bucket ++ js "/o/" ++ skipn 3 r4).
    rewrite S1, E1, S2, E2, <- S3. reflexivity.
Qed.

(** Code units that [encodeURIComponent] can produce: ASCII, and neither
    white space, ['?'] nor a line terminator. *)
Definition url_char (u : N) : bool :=
  (u <? 128)%N && nonspace u && negb (u =? 63)%N && negb (is_line_terminator u).

Lemma escape_cp_url (cp : N) : (cp < 1114112)%N -> forallb url_char (escape_cp cp) = true.
Proof.
  intros H. pose proof (utf8_octets_lt cp H) as L. unfold escape_cp.
  induction (utf8_octets cp) as [|b bs IH]; [reflexivity|].
  cbn [flat_map forallb] in L |- *. apply andb_prop in L as [Lb Ls]. apply N.ltb_lt in Lb.
  rewrite forallb_app, IH by exact Ls. rewrite andb_true_r.
  exact (forallb_N_range (fun b => forallb url_char (escape_octet b)) 256
           ltac:(vm_compute; reflexivity) b Lb).
Qed.

Lemma unreserved_url (c : N) : uri_unreserved c = true -> url_char c = true.
Proof.
  intros U. pose proof (unreserved_ascii c U) as Ha.
  pose proof (forallb_N_range (fun c => negb (uri_unreserved c) || url_char c) 128
    ltac:(vm_compute; reflexivity) c Ha) as E. cbv beta in E. now rewrite U in E.
Qed.

Lemma cmap_normal {A B} (f : A -> B) (m : completion A) (b : B) :
  cmap f m = Normal b -> exists a, m = Normal a /\ b = f a.
Proof. destruct m as [a|e]; simpl; intros H; [|discriminate]. injection H as <-. now exists a. Qed.

Lemma encode_url_chars (s e : jsstring) :
  code_units_ok s = true -> encodeURIComponent s = Normal e -> forallb url_char e = true.
Proof.
  unfold code_units_ok. revert e.
  induction s as [|c IH|c c2 r IH1 IH2] using utf16_ind'; intros e Hs He.
  - injection He as <-. reflexivity.
  - cbn [forallb] in Hs. rewrite andb_true_r in Hs. apply N.ltb_lt in Hs.
    cbn [encodeURIComponent] in He.
    destruct (uri_unreserved c) eqn:U.
    + injection He as <-. cbn [forallb]. now rewrite unreserved_url.
    + destruct (is_low_surrogate c); [discriminate|].
      destruct (is_high_surrogate c); [discriminate|].
      injection He as <-. rewrite app_nil_r. apply escape_cp_url. lia.
  - cbn [forallb] in Hs. apply andb_prop in Hs as [Hc Hs]. apply N.ltb_lt in Hc.
    pose proof Hs as Hs2. cbn [forallb] in Hs2. apply andb_prop in Hs2 as [_ Hr].
    cbn [encodeURIComponent] in He.
    destruct (uri_unreserved c) eqn:U.
    + apply cmap_normal in He as (a & Ha & ->). cbn [forallb].
      rewrite unreserved_url by exact U. exact (IH2 a Hs Ha).
    + destruct (is_low_surrogate c); [discriminate|].
      destruct (is_high_surrogate c) eqn:Hh.
      * destruct (is_low_surrogate c2) eqn:Hl; [|discriminate].
        apply cmap_normal in He as (a & Ha & ->). rewrite forallb_app, (IH1 a Hr Ha).
        destruct (pair_units c c2 Hh Hl) as [Hb _]. unfold pair_cp in Hb.
        rewrite escape_cp_url by lia. reflexivity.
      * apply cmap_normal in He as (a & Ha & ->). rewrite forallb_app, (IH2 a Hs Ha).
        rewrite escape_cp_url by lia. reflexivity.
Qed.

Lemma pair_range_units (x y : N) : (x < 1024)%N -> (y < 1024)%N ->
  forallb (fun c => c <? 65536)%N [(55296 + x)%N; (56320 + y)%N] = true.
Proof. intros Hx Hy. cbn [forallb]. rewrite andb_true_r, andb_true_iff, !N.ltb_lt. lia. Qed.

Lemma utf8_finish_units (n v : N) (u : jsstring) :
  ((n =? 4)%N || (v <? 65536)%N) = true -> utf8_finish n v = Some u -> code_units_ok u = true.
Proof.
  intros Hn. unfold utf8_finish. destruct (if (n =? 2)%N then _ else _) eqn:Ok; [|discriminate].
  destruct (N.ltb_spec v 65536) as [Hv|Hv]; intros H; injection H as <-; unfold code_units_ok.
  - cbn [forallb]. rewrite andb_true_r. now apply N.ltb_lt.
  - rewrite orb_false_r in Hn. apply N.eqb_eq in Hn. subst n. cbn in Ok.
    apply andb_prop in Ok as [_ Ok]. apply N.leb_le in Ok.
    assert ((v - 65536) / 1024 < 1024)%N by (apply N.Div0.div_lt_upper_bound; lia).
    assert ((v - 65536) mod 1024 < 1024)%N by (apply N.mod_lt; lia).
    exact (pair_range_units _ _ H H0).
Qed.

(** Bounds kept along a multi-octet sequence: outside four-octet
    sequences, the bits accumulated so far fit a code unit at the end. *)
Definition pending_ok (p : pending) : bool :=
  match p with
  | PStart => true
  | PCont k n acc => (n =? 4)%N || ((k =? 1)%N && (acc <? 1024)%N) || ((k =? 2)%N && (acc <? 16)%N)
  end.

Definition dec_state_ok (st : dec_state) : bool :=
  match st with
  | DText => true
  | DPct1 p | DPct2 p _ | DNeedPct p => pending_ok p
  end.

Lemma pending_ok_cont (k n acc : N) :
  pending_ok (PCont k n acc) = true <-> (n = 4 \/ (k = 1 /\ acc < 1024) \/ (k = 2 /\ acc < 16))%N.
Proof. cbn [pending_ok]. rewrite !orb_true_iff, !andb_true_iff, !N.eqb_eq, !N.ltb_lt. tauto. Qed.

Lemma utf8_length_start (b n : N) :
  utf8_length b = Some n -> pending_ok (PCont (n - 1) n (utf8_lead_bits b n)) = true.
Proof.
  unfold utf8_length, utf8_lead_bits.
  destruct (N.land b 224 =? 192)%N; [intros H; injection H as <-|].
  { cbn -[N.land]. pose proof (N.land_le_r b 31). rewrite ?orb_false_r. apply N.ltb_lt. lia. }
  destruct (N.land b 240 =? 224)%N; [intros H; injection H as <-|].
  { cbn -[N.land]. pose proof (N.land_le_r b 15). rewrite ?orb_false_r. apply N.ltb_lt. lia. }
  destruct (N.land b 248 =? 240)%N; [intros H; injection H as <-|discriminate]. reflexivity.
Qed.

(** The decoder only yields code units, from code units. *)
Lemma decode_units (st : dec_state) (s d : jsstring) :
  dec_state_ok st = true -> code_units_ok s = true -> decode_from st s = Normal d ->
  code_units_ok d = true.
Proof.
  unfold code_units_ok. revert st d.
  induction s as [|c r IH]; intros st d Hst Hs H.
  - destruct st; cbn [decode_from] in H; try discriminate. injection H as <-. reflexivity.
  - cbn [forallb] in Hs. apply andb_prop in Hs as [Hc Hr].
    cbn [decode_from] in H. destruct st as [|p|p h|p]; cbn [dec_state_ok] in Hst.
    + destruct (c =? 37)%N; [exact (IH (DPct1 PStart) _ eq_refl Hr H)|].
      apply cmap_normal in H as (a & Ha & ->). cbn [forallb].
      now rewrite Hc, (IH DText _ eq_refl Hr Ha).
    + destruct (hex_value c); [refine (IH _ _ _ Hr H); exact Hst|discriminate].
    + destruct (hex_value c) as [l|]; [|discriminate]. destruct p as [|k n acc].
      * destruct (N.ltb_spec (h * 16 + l) 128) as [Hb|_].
        -- apply cmap_normal in H as (a & Ha & ->). cbn [forallb].
           rewrite (IH DText _ eq_refl Hr Ha), andb_true_r. apply N.ltb_lt. lia.
        -- destruct (utf8_length _) eqn:L; [|discriminate].
           refine (IH _ _ _ Hr H). exact (utf8_length_start _ _ L).
      * destruct (N.land _ 192 =? 128)%N; [|discriminate].
        apply pending_ok_cont in Hst.
        destruct (N.eqb_spec k 1) as [Hk|Hk].
        -- destruct (utf8_finish n _) as [u|] eqn:F; [|discriminate].
           apply cmap_normal in H as (a & Ha & ->). rewrite forallb_app.
           apply utf8_finish_units in F.
           ++ unfold code_units_ok in F. now rewrite F, (IH DText _ eq_refl Hr Ha).
           ++ pose proof (mod64 ((h * 16 + l))).
              rewrite orb_true_iff, N.eqb_eq, N.ltb_lt. lia.
        -- refine (IH _ _ _ Hr H). cbn [dec_state_ok]. apply pending_ok_cont.
           pose proof (mod64 ((h * 16 + l))). lia.
    + destruct (c =? 37)%N; [refine (IH _ _ _ Hr H); exact Hst|discriminate].
Qed.

Lemma count_one_split (u : N) (s : jsstring) : count_unit u s = 1%nat ->
  exists a b, s = a ++ u :: b /\ count_unit u a = 0%nat /\ count_unit u b = 0%nat.
Proof.
  induction s as [|c s IH]; simpl; [discriminate|].
  destruct (N.eqb_spec c u) as [->|Hcu]; simpl; intros H.
  - exists [], s. split; [reflexivity|]. split; [reflexivity|]. lia.
  - destruct (IH H) as (a & b & -> & Ha & Hb). exists (c :: a), b.
    simpl. apply N.eqb_neq in Hcu. rewrite Hcu. auto.
Qed.

(** What [raw.split("?")] gives the code when [raw] has at most one ['?']. *)
Lemma split_query_parse (raw : jsstring) : (count_unit 63 raw <= 1)%nat ->
  exists base query, hd [] (split_on 63 raw) = base
  /\ match nth_error (split_on 63 raw) 1 with Some q => q | None => [] end = query
  /\ count_unit 63 base = 0%nat /\ count_unit 63 query = 0%nat
  /\ (exists rest, raw = base ++ rest)
  /\ (js_truthy query = true -> raw = base ++ 63%N :: query).
Proof.
  intros H. destruct (count_unit 63 raw) as [|[|k]] eqn:C; [| |lia].
  - rewrite split_on_none by exact C. exists raw, []. cbn. repeat split; auto.
    + exists []. now rewrite app_nil_r.
    + discriminate.
  - destruct (count_one_split 63 raw C) as (a & b & -> & Ha & Hb).
    rewrite split_on_one, split_on_none by assumption. exists a, b. cbn. repeat split; auto.
    now exists (63%N :: b).
Qed.

Lemma split_query_build (b q : jsstring) : count_unit 63 b = 0%nat -> count_unit 63 q = 0%nat ->
  hd [] (split_on 63 (if js_truthy q then b ++ [63%N] ++ q else b)) = b
  /\ match nth_error (split_on 63 (if js_truthy q then b ++ [63%N] ++ q else b)) 1
     with Some x => x | None => [] end = q.
Proof.
  intros Hb Hq. destruct q as [|c q].
  - cbn [js_truthy]. rewrite split_on_none by exact Hb. split; reflexivity.
  - cbn [js_truthy]. change ([63%N] ++ c :: q) with (63%N :: c :: q).
    rewrite split_on_one, (split_on_none _ (c :: q)) by assumption. split; reflexivity.
Qed.

Lemma url_chars_no_query (e : jsstring) : forallb url_char e = true -> count_unit 63 e = 0%nat.
Proof.
  induction e as [|c e IH]; [reflexivity|]. cbn [forallb count_unit].
  intros H. apply andb_prop in H as [Hc He]. unfold url_char in Hc.
  destruct (c =? 63)%N; [rewrite !andb_false_r in Hc; discriminate|]. now rewrite IH.
Qed.

Lemma url_chars_no_lt (e : jsstring) :
  forallb url_char e = true -> forallb (fun c => negb (is_line_terminator c)) e = true.
Proof.
  induction e as [|c e IH]; [reflexivity|]. cbn [forallb].
  intros H. apply andb_prop in H as [Hc He]. unfold url_char in Hc.
  apply andb_prop in Hc as [_ Hc]. now rewrite Hc, IH.
Qed.

Lemma forallb_trim (P : N -> bool) (s : jsstring) : forallb P s = true -> forallb P (trim s) = true.
Proof.
  intros H. unfold trim, trim_end.
  destruct (trim_start_split s) as [sp [E _]]. rewrite E, forallb_app in H.
  apply andb_prop in H as [_ H].
  destruct (trim_start_split (rev (trim_start s))) as [sp2 [E2 _]].
  rewrite <- forallb_rev in H. rewrite E2, forallb_app in H. apply andb_prop in H as [_ H].
  now rewrite forallb_rev.
Qed.

Lemma trim_ends (s : jsstring) :
  no_lead_space s = true -> no_lead_space (rev s) = true -> trim s = s.
Proof.
  intros H1 H2. unfold trim, trim_end. rewrite (trim_start_fixed s H1).
  rewrite (trim_start_fixed (rev s) H2). apply rev_involutive.
Qed.

Lemma no_lead_rev_app (x y : jsstring) :
  y <> [] -> no_lead_space (rev (x ++ y)) = no_lead_space (rev y).
Proof.
  intros Hy. rewrite rev_app_distr. destruct (rev y) as [|c t] eqn:E; [|reflexivity].
  apply (f_equal (@rev N)) in E. rewrite rev_involutive in E. contradiction.
Qed.

Lemma no_lead_rev_url (x e : jsstring) :
  no_lead_space (rev x) = true -> forallb url_char e = true -> no_lead_space (rev (x ++ e)) = true.
Proof.
  intros Hx He. rewrite rev_app_distr. destruct (rev e) as [|c t] eqn:E; [exact Hx|].
  assert (Hin : In c e) by (apply in_rev; rewrite E; now left).
  rewrite forallb_forall in He. specialize (He c Hin). unfold url_char in He.
  apply andb_prop in He as [He _]. apply andb_prop in He as [He _].
  apply andb_prop in He as [_ He]. exact He.
Qed.

Lemma trimmed_last (s : jsstring) : trim s = s -> no_lead_space (rev s) = true.
Proof.
  intros H. destruct (trim_fixed_parts s H) as [_ Hr]. rewrite <- Hr. apply trim_start_no_lead.
Qed.

Lemma match_nonnil {A B} (l : list A) (a b : B) : l <> [] -> match l with [] => a | _ => b end = b.
Proof. destruct l; [congruence|reflexivity]. Qed.

Lemma decode_encoded (d e : jsstring) :
  code_units_ok d = true -> encodeURIComponent d = Normal e -> decodeURIComponent e = Normal d.
Proof.
  intros Hu He.
  assert (Hw : wf_utf16 d = true).
  { destruct (wf_utf16 d) eqn:W; [reflexivity|]. apply encode_throw_iff in W. congruence. }
  destruct (encode_utf16 d Hu Hw) as (e' & E1 & E2 & _). rewrite He in E1. injection E1 as <-.
  unfold decodeURIComponent. rewrite <- (app_nil_r e), E2. simpl. now rewrite app_nil_r.
Qed.

Lemma normalize_trimmed (raw : jsstring) :
  trim raw = raw -> code_units_ok raw = true -> (count_unit 63 raw <= 1)%nat ->
  normalizeFirebaseStorageUrl (normalizeFirebaseStorageUrl raw) = normalizeFirebaseStorageUrl raw.
Proof.
  intros Ht Hu Hq.
  destruct raw as [|c0 t0] eqn:Er; [reflexivity|]. rewrite <- Er in *.
  assert (Hne : raw <> []) by (rewrite Er; discriminate). clear c0 t0 Er.
  remember (normalizeFirebaseStorageUrl raw) as r eqn:Hr.
  assert (Hr0 := Hr). unfold normalizeFirebaseStorageUrl in Hr.
  rewrite Ht, (match_nonnil raw) in Hr by exact Hne.
  destruct (_ && _ && _) eqn:I.
  { rewrite Hr in Hr0 |- *. now rewrite <- Hr0. }
  destruct (split_query_parse raw Hq)
    as (base & query & Eb0 & Eq0 & Qb & Qq & [rest Erest] & Qraw).
  rewrite Eb0, Eq0 in Hr. clear Eb0 Eq0.
  destruct (match_storage_url base) as [[prefix obj]|] eqn:M.
  2:{ rewrite Hr in Hr0 |- *. now rewrite <- Hr0. }
  destruct (cbind (decodeURIComponent obj) encodeURIComponent) as [enc|err] eqn:C.
  2:{ rewrite Hr in Hr0 |- *. now rewrite <- Hr0. }
  destruct (match_storage_url_spec _ _ _ M) as (host & bucket & Sh & Sb & Ep & Eb).
  destruct (decodeURIComponent obj) as [d|] eqn:D; cbn [cbind] in C; [|discriminate].
  assert (Hd : code_units_ok d = true).
  { apply (decode_units DText obj d); [reflexivity| |exact D].
    unfold code_units_ok in Hu |- *. rewrite Erest, Eb, !forallb_app in Hu.
    rewrite !andb_true_iff in Hu. tauto. }
  assert (Ue : forallb url_char enc = true) by exact (encode_url_chars d enc Hd C).
  assert (De : decodeURIComponent enc = Normal d) by exact (decode_encoded d enc Hd C).
  assert (Cp : count_unit 63 (prefix ++ enc) = 0%nat).
  { rewrite count_unit_app, (url_chars_no_query enc Ue), Ep, !count_unit_app.
    rewrite Eb, !count_unit_app in Qb. lia. }
  destruct (split_query_build (prefix ++ enc) query Cp Qq) as [B1 B2].
  assert (Er : r = if js_truthy query then (prefix ++ enc) ++ [63%N] ++ query else prefix ++ enc)
    by (rewrite Hr; destruct (js_truthy query); [now rewrite <- app_assoc|reflexivity]).
  assert (Rne : r <> []) by (rewrite Er, Ep; destruct (js_truthy query); discriminate).
  assert (Rt : trim r = r).
  { apply trim_ends.
    - rewrite Er, Ep. destruct (js_truthy query); reflexivity.
    - rewrite Er. destruct (js_truthy query) eqn:Tq.
      + rewrite app_assoc, no_lead_rev_app by (destruct query; discriminate).
        rewrite (Qraw eq_refl) in Ht. apply trimmed_last in Ht.
        change (63%N :: query) with ([63%N] ++ query) in Ht.
        rewrite app_assoc, no_lead_rev_app in Ht by (destruct query; discriminate). exact Ht.
      + apply no_lead_rev_url; [|exact Ue]. rewrite Ep, !app_assoc, no_lead_rev_app by discriminate.
        reflexivity. }
  unfold normalizeFirebaseStorageUrl at 1. rewrite Rt, (match_nonnil r) by exact Rne.
  destruct (includes (js "/v0/b/") r && includes (js "/o/") r && includes (js "%2F") r); [reflexivity|].
  rewrite <- Er in B1, B2. rewrite B1, B2.
  assert (Mb : match_storage_url (prefix ++ enc)
    = if js_truthy enc && forallb (fun c => negb (is_line_terminator c)) enc
      then Some (prefix, enc) else None)
    by (rewrite Ep, <- !app_assoc; apply match_storage_url_build; assumption).
  rewrite Mb.
  rewrite (url_chars_no_lt enc Ue), andb_true_r.
  destruct (js_truthy enc); [|reflexivity].
  rewrite De. cbn [cbind]. rewrite C. rewrite Er.
  destruct (js_truthy query); [now rewrite <- app_assoc|reflexivity].
Qed.

(** X16: [normalizeFirebaseStorageUrl] is idempotent: normalising its result
    again changes nothing, for an input of UTF-16 code units whose trimmed
    form has at most one ['?']. *)
Theorem normalizeFirebaseStorageUrl_idempotent (input : jsstring) :
  code_units_ok input = true -> (count_unit 63 (trim input) <= 1)%nat ->
  normalizeFirebaseStorageUrl (normalizeFirebaseStorageUrl input)
  = normalizeFirebaseStorageUrl input.
Proof.
  intros Hu Hq. rewrite <- (normalize_trim input).
  apply normalize_trimmed; [apply trim_idempotent|now apply forallb_trim|exact Hq].
Qed.

Lemma normalizeFirebaseStorageUrl_idempotent_witness :
  code_units_ok (js " https://h.example/v0/b/bkt/o/dir/a b.jpg?alt=media ") = true
  /\ (count_unit 63 (trim (js " https://h.example/v0/b/bkt/o/dir/a b.jpg?alt=media ")) <= 1)%nat
  /\ normalizeFirebaseStorageUrl (normalizeFirebaseStorageUrl (js " https://h.example/v0/b/bkt/o/dir/a b.jpg?alt=media "))
     = normalizeFirebaseStorageUrl (js " https://h.example/v0/b/bkt/o/dir/a b.jpg?alt=media ").
Proof.
  split; [vm_compute; reflexivity|]. split; [vm_compute; lia|].
  apply normalizeFirebaseStorageUrl_idempotent; vm_compute; [reflexivity|lia].
Defined.
